(** * Search/browse MCP server: a shallow embedding and its properties

    The development follows the three TypeScript sources of the server:
    - [utils/logger]: the [Logger] object (console output);
    - [services/search-browse]: class [SearchBrowseService]
      ([getAiResponse], [searchGoogle], [getBriefText], [getSearchResults],
      [readJina], [getBrowseAnswer], [getBrowseResults]);
    - [index]: class [MyMCP] (tool registration in [init], and the manual
      [fetch] handler of the Durable Object with its SSE session registry).

    JavaScript strings are sequences of UTF-16 code units; they are modelled
    as lists of code units.  Asynchronous functions are modelled as functions
    returning their settled value together with the trace of the effects they
    performed; the answers of the three remote services are read from
    oracles, which every theorem quantifies over. *)

From Stdlib Require Import ZArith Lia DecimalString.
From Stdlib Require Import Ascii.
From stdpp Require Import base strings list gmap sorting.
From Equations Require Import Equations.

Open Scope Z_scope.

(** ** JavaScript values and built-ins used by the sources *)

Module Js.

(** A string is the list of its UTF-16 code units. *)
Abbreviation jsstring := (list N).

(** A string literal of the source (all literals are ASCII). *)
Definition lit (s : string) : jsstring :=
  N_of_ascii <$> String.list_ascii_of_string s.
Arguments lit s%_string : simpl never.

(** [s.length] *)
Definition strlen (s : jsstring) : Z := Z.of_nat (length s).

(** Truthiness of a string: only the empty string is falsy. *)
Definition truthy (s : jsstring) : bool :=
  match s with [] => false | _ :: _ => true end.

(** [a || b] on strings. *)
Definition or_else (a b : jsstring) : jsstring :=
  if truthy a then a else b.

(** [Math.ceil(a / b)] for integers [a] and [b > 0].  The quotient and its
    ceiling are exact in double precision for [0 <= a < 2^53], which covers
    every string length. *)
Definition ceilDiv (a b : Z) : Z := - ((- a) / b).

(** [s.slice(start, end)] (ECMAScript [String.prototype.slice]). *)
Definition slice (s : jsstring) (start end_ : Z) : jsstring :=
  let len := strlen s in
  let from := if start <? 0 then Z.max (len + start) 0 else Z.min start len in
  let to := if end_ <? 0 then Z.max (len + end_) 0 else Z.min end_ len in
  let span := Z.max (to - from) 0 in
  take (Z.to_nat span) (drop (Z.to_nat from) s).

(** White space and line terminators, as stripped by [trim]. *)
Definition isWhiteSpace (c : N) : bool :=
  ((9 <=? c) && (c <=? 13) || (c =? 32) || (c =? 160) || (c =? 5760)
   || (8192 <=? c) && (c <=? 8202) || (c =? 8232) || (c =? 8233)
   || (c =? 8239) || (c =? 8287) || (c =? 12288) || (c =? 65279))%N.

Fixpoint trimStart (s : jsstring) : jsstring :=
  match s with
  | c :: s' => if isWhiteSpace c then trimStart s' else s
  | [] => []
  end.

Definition trimEnd (s : jsstring) : jsstring :=
  reverse (trimStart (reverse s)).

(** [s.trim()] *)
Definition trim (s : jsstring) : jsstring := trimEnd (trimStart s).

(** [s.startsWith(p)] *)
Fixpoint startsWith (s p : jsstring) : bool :=
  match p, s with
  | [], _ => true
  | c :: p', d :: s' => (c =? d)%N && startsWith s' p'
  | _ :: _, [] => false
  end.

(** [s.indexOf(sub)], with [None] for [-1]. *)
Fixpoint indexOf (s sub : jsstring) : option nat :=
  if startsWith s sub then Some 0%nat
  else match s with
       | [] => None
       | _ :: s' => S <$> indexOf s' sub
       end.

(** [s.includes(sub)] *)
Definition includes (s sub : jsstring) : bool :=
  bool_decide (is_Some (indexOf s sub)).

(** [s.replace(/c/g, "")] for a pattern that is one literal character. *)
Definition deleteAll (c : N) (s : jsstring) : jsstring :=
  filter (λ d, d ≠ c) s.

(** [parts.join(sep)] *)
Fixpoint join (sep : jsstring) (parts : list jsstring) : jsstring :=
  match parts with
  | [] => []
  | [p] => p
  | p :: rest => p ++ sep ++ join sep rest
  end.

(** [String(n)], the decimal numeral of an integer, as interpolated by a
    template literal. *)
Definition numToString (n : Z) : jsstring :=
  lit (NilZero.string_of_int (Z.to_int n)).
Arguments numToString n : simpl never.

Definition openTag : jsstring := lit "<think>".
Definition closeTag : jsstring := lit "</think>".

(** [s.replace(/<think>[\s\S]*?<\/think>/g, "")]: scanning from the left,
    the leftmost occurrence of the opening tag that is followed by a
    closing tag is deleted together with everything up to and including the
    nearest closing tag (the quantifier is lazy), and the scan resumes
    after the deleted block.  When the leftmost opening tag has no closing
    tag after it, no later one has either, and the rest is kept. *)
Equations? stripThink (s : jsstring) : jsstring by wf (length s) lt :=
  stripThink s with Logic.inspect (indexOf s openTag) := {
    | exist _ None _ => s
    | exist _ (Some p) _ with Logic.inspect (indexOf (drop (p + 7) s) closeTag) := {
        | exist _ None _ => s
        | exist _ (Some e) _ =>
            take p s ++ stripThink (drop (e + 8) (drop (p + 7) s)) } }.
Proof.
  rewrite !length_drop.
  destruct s as [|c s]; [discriminate|]. simpl. lia.
Qed.

End Js.

Import Js.

(** ** Asynchronous computations and their effects *)

(** The observable effects of the service.  Concurrently started calls that
    are joined by [Promise.all] contribute one [Parallel] event holding the
    trace of every branch, so that no interleaving is imposed on them. *)
#[warnings="-register-all"]
Inductive event :=
| ChatCompletion (prompt : jsstring)
    (** [this.openai.chat.completions.create], with the user message *)
| SerperSearch (query : jsstring)
    (** [fetch("https://google.serper.dev/search")] *)
| JinaRead (url : jsstring)
    (** [fetch("https://r.jina.ai/")] *)
| Sleep (ms : Z)
    (** [await new Promise(r => setTimeout(r, ms))] *)
| ConsoleLog (args : list jsstring)
| ConsoleError (args : list jsstring)
| Parallel (branches : list (list event)).

Abbreviation trace := (list event).

(** An asynchronous function settles with a value after having performed a
    trace of effects. *)
Definition Async (A : Type) : Type := A * trace.

#[export] Instance Async_ret : MRet Async := λ A a, (a, []).
#[export] Instance Async_bind : MBind Async :=
  λ A B f m, let r := f m.1 in (r.1, m.2 ++ r.2).

Definition tell (t : trace) : Async unit := ((), t).

(** [await new Promise(r => setTimeout(r, ms))] *)
Definition sleep (ms : Z) : Async unit := tell [Sleep ms].

(** [Promise.all(promises)]: every promise writes its value into the slot of
    its own index when it settles, and the array of values is delivered once
    all have settled.  [finish i] is the time at which promise [i] settles;
    promises are served in the order of their settling times. *)
Definition settlesBefore (finish : nat → nat) : relation nat :=
  λ i j, (finish i ≤ finish j)%nat.

#[export] Instance settlesBefore_dec finish i j :
  Decision (settlesBefore finish i j).
Proof. unfold settlesBefore. apply _. Defined.

Definition promiseAll {A} (finish : nat → nat) (promises : list (Async A))
  : Async (list A) :=
  let order := merge_sort (settlesBefore finish) (seq 0 (length promises)) in
  let values :=
    foldl (λ values i, <[i := fst <$> promises !! i]> values)
          (replicate (length promises) None) order in
  (omap id values, [Parallel (snd <$> promises)]).

(** A value or a thrown [Error] with its message. *)
Inductive result (A : Type) :=
| Ok (a : A)
| Throw (message : jsstring).
Arguments Ok {A} a.
Arguments Throw {A} message.

#[export] Instance result_ret : MRet result := λ A a, Ok a.
#[export] Instance result_bind : MBind result :=
  λ A B f m, match m with Ok a => f a | Throw message => Throw message end.

(** ** [utils/logger] *)

Module Logger.
Definition log (msg : jsstring) : Async unit :=
  tell [ConsoleLog [lit "[INFO]"; msg]].
Definition error (msg : jsstring) : Async unit :=
  tell [ConsoleError [lit "[ERROR]"; msg]].
End Logger.

(** ** The remote collaborators *)

(** What one call of [chat.completions.create] does: it throws (also when the
    response carries no [choices[0].message]), or it delivers
    [choices[0].message.content], which may be [null]. *)
Inductive completion :=
| CompletionThrows (message : jsstring)
| CompletionReplies (content : option jsstring).

(** What one [fetch] does: it rejects, or it delivers a response with its
    [ok] flag, its [statusText] and its body; reading the body
    ([response.json()], [response.text()]) may itself throw. *)
Inductive http (B : Type) :=
| FetchThrows (message : jsstring)
| HttpResponse (ok : bool) (statusText : jsstring) (body : result B).
Arguments FetchThrows {B} message.
Arguments HttpResponse {B} ok statusText body.

Record SearchResult := {
  title : jsstring;
  link : option jsstring;
  url : option jsstring;
  snippet : option jsstring;
  description : option jsstring;
  extra_snippets : option (list jsstring);
}.

(** The answers of the remote services.  [openai call prompt i] is what the
    [i]-th attempt of the completion call number [call] (among the calls
    started concurrently; 0 when there is one) receives for [prompt];
    [serper query i] and [jina url i] are what the [i]-th attempt of a search
    or of a page read receives; [organic] is the field [data.organic] of the
    search reply, when present; [settles call] is the time at which the
    completion call number [call] settles. *)
Record Remote := {
  openai : nat → jsstring → nat → completion;
  settles : nat → nat;
  serper : jsstring → nat → http (option (list SearchResult));
  jina : jsstring → nat → http jsstring;
}.

(** ** [services/search-browse] *)

Module SearchBrowseService.

(** The fields of the service object. *)
Record t := {
  serperApiKey : jsstring;
  jinaApiKey : jsstring;
}.

Definition nl : jsstring := [10%N].
Definition quote : N := 34%N.

(** [o || d] for a string that may be [null] or [undefined]. *)
Definition opt_or (o : option jsstring) (d : jsstring) : jsstring :=
  match o with Some s => or_else s d | None => d end.

(** The delay before attempt [i + 1]: [1000 * Math.pow(2, i)]. *)
Definition backoff (i : nat) : Z := 1000 * 2 ^ Z.of_nat i.

(** The body of [for (let i = 0; i < maxRetry; i++)] in [getAiResponse],
    from iteration [i] on; [fuel] is the number of iterations left. *)
Fixpoint getAiResponse_loop (remote : Remote) (call : nat) (query : jsstring)
    (maxRetry i fuel : nat) : Async (option jsstring) :=
  match fuel with
  | O => mret None
  | S fuel' =>
      tell [ChatCompletion query];;
      match openai remote call query i with
      | CompletionReplies content =>
          let content := opt_or content [] in
          let content := trim (stripThink content) in
          mret (Some content)
      | CompletionThrows message =>
          Logger.error (lit "[AI] Error (attempt "
                        ++ numToString (Z.of_nat i + 1) ++ lit "): " ++ message);;
          (if (i <? maxRetry - 1)%nat then sleep (backoff i) else mret ());;
          getAiResponse_loop remote call query maxRetry (S i) fuel'
      end
  end.

Definition getAiResponse (remote : Remote) (call : nat) (query : jsstring)
    (maxRetry : nat) : Async (option jsstring) :=
  getAiResponse_loop remote call query maxRetry 0 maxRetry.

Definition searchGoogle (this : t) (remote : Remote) (query : jsstring)
    (attempt : nat) : Async (result (list SearchResult)) :=
  if negb (truthy (serperApiKey this))
  then mret (Throw (lit "SERPER_API_KEY is missing"))
  else
    tell [SerperSearch query];;
    mret match serper remote query attempt with
         | FetchThrows message => Throw message
         | HttpResponse ok statusText body =>
             if negb ok
             then Throw (lit "Serper API error: " ++ statusText)
             else match body with
                  | Throw message => Throw message
                  | Ok organic => Ok (default [] organic)
                  end
         end.

Definition briefEntry (content : SearchResult) : jsstring :=
  let snippet :=
    match extra_snippets content with
    | Some ((_ :: _) as extra) => join nl extra
    | _ =>
        match snippet content with
        | Some ((_ :: _) as s) => s
        | _ => opt_or (description content) []
        end
    end in
  let url := match url content with
             | Some ((_ :: _) as u) => u
             | _ => opt_or (link content) []
             end in
  lit "<title>" ++ title content ++ lit "</title>" ++ nl
  ++ lit "<url>" ++ url ++ lit "</url>" ++ nl
  ++ lit "<snippet>" ++ nl ++ snippet ++ nl ++ lit "</snippet>" ++ nl ++ nl.

Definition getBriefText (contents : list SearchResult) : jsstring :=
  trim (foldl (λ sourceText content, sourceText ++ briefEntry content)
              [] contents).

Definition emptyResult : jsstring :=
  lit "Search result is empty. Please try again.".

(** The body of the retry loop of [getSearchResults], from iteration [i]
    on, with the current value of the variable [sourceText]; the loop is
    left by [break] as soon as an attempt yields a non-empty text. *)
Fixpoint getSearchResults_loop (this : t) (remote : Remote)
    (query : jsstring) (maxRetry i fuel : nat) (sourceText : jsstring)
  : Async jsstring :=
  match fuel with
  | O => mret sourceText
  | S fuel' =>
      r ← searchGoogle this remote query i;
      match r with
      | Ok results =>
          let sourceText := getBriefText results in
          if truthy sourceText then mret sourceText
          else getSearchResults_loop this remote query maxRetry (S i) fuel'
                                     sourceText
      | Throw message =>
          Logger.error (lit "[SEARCH] Error (attempt "
                        ++ numToString (Z.of_nat i + 1) ++ lit "): " ++ message);;
          (if (i <? maxRetry - 1)%nat then sleep (backoff i) else mret ());;
          getSearchResults_loop this remote query maxRetry (S i) fuel'
                                sourceText
      end
  end.

Definition fallbackMessage (query : jsstring) : jsstring :=
  lit "Search result for query [" ++ query
  ++ lit "] is empty. Return search result for cleaned query instead.".

(** [getSearchResults] calls itself on the query without its quotes; the
    number of quotes in the query decreases along that call. *)
Equations? getSearchResults (this : t) (remote : Remote) (query : jsstring)
    (maxRetry : nat) : Async jsstring
  by wf (length (filter (λ c, c = quote) query)) lt :=
  getSearchResults this remote query maxRetry :=
    if negb (truthy (trim query)) then mret emptyResult
    else
      sourceText ← getSearchResults_loop this remote query maxRetry 0 maxRetry [];
      if negb (truthy sourceText) then
        match decide (includes query [quote]) with
        | left Hquote =>
            let cleaned := deleteAll quote query in
            let message := fallbackMessage query in
            fallback ← getSearchResults this remote cleaned 3;
            mret (if truthy fallback
                     && negb (includes fallback (lit "Please try again"))
                  then message ++ nl ++ nl ++ fallback
                  else emptyResult)
        | right _ => mret emptyResult
        end
      else mret sourceText.
Proof.
  clear - Hquote. subst cleaned. unfold deleteAll, includes in *.
  apply bool_decide_unpack in Hquote.
  assert (Hin : quote ∈ query).
  { induction query as [|c q IH]; [by destruct Hquote|].
    cbn [indexOf startsWith] in Hquote.
    destruct (N.eqb_spec quote c) as [->|Hne]; [left|].
    right. apply IH. cbn [andb] in Hquote.
    destruct (indexOf q [quote]); [done|by destruct Hquote]. }
  assert (Hnil : filter (λ c, c = quote) (filter (λ d, d ≠ quote) query) = []).
  { clear. induction query as [|c q IH]; [done|].
    rewrite filter_cons. case_decide; [|done].
    rewrite filter_cons. by rewrite decide_False. }
  rewrite Hnil. apply list_elem_of_split in Hin as (l1 & l2 & ->).
  rewrite filter_app, filter_cons_True, length_app by done. simpl. lia.
Qed.

(** [readJina]; the request headers do not influence the control flow and
    are left out. *)
Definition readJina (this : t) (remote : Remote) (url : jsstring)
    (attempt : nat) : Async (result jsstring) :=
  tell [JinaRead url];;
  mret match jina remote url attempt with
       | FetchThrows message => Throw message
       | HttpResponse ok statusText body =>
           if negb ok
           then Throw (lit "Jina API error: " ++ statusText)
           else body
       end.

Definition tokenLimit : Z := 190000.
Definition charLimit : Z := tokenLimit * 4.

(** The prompt of one chunk in the split branch of [getBrowseAnswer]. *)
Definition chunkQuery (chunk browseQuery : jsstring) : jsstring :=
  lit "Please read the source content and answer a following question:" ++ nl
  ++ lit "--- begin of source content ---" ++ nl
  ++ chunk ++ nl
  ++ lit "--- end of source content ---" ++ nl ++ nl
  ++ lit "If there is no relevant information, please clearly refuse to answer."
  ++ nl
  ++ lit "When answering, please identify and extract the original content as the evidence. Now answer the question based on the above content:"
  ++ nl ++ browseQuery.

(** The prompt of the branch without splitting. *)
Definition wholeQuery (sourceText browseQuery : jsstring) : jsstring :=
  lit "Please read the source content and answer a following question:" ++ nl
  ++ lit "---begin of source content---" ++ nl
  ++ sourceText ++ nl
  ++ lit "---end of source content---" ++ nl ++ nl
  ++ lit "If there is no relevant information, please clearly refuse to answer."
  ++ nl
  ++ lit "When answering, please identify and extract the original content as the evidence. Now answer the question based on the above content:"
  ++ nl ++ browseQuery.

Definition splitNote : jsstring :=
  lit "Since the content is too long, the result is split and answered separately. Please combine the results to get the complete answer."
  ++ nl.

(** What the reduce loop appends for [results[i]]. *)
Definition resultPart (i : nat) (answer : jsstring) : jsstring :=
  lit "--- begin of result part " ++ numToString (Z.of_nat i + 1)
  ++ lit " ---" ++ nl ++ answer ++ nl
  ++ lit "--- end of result part " ++ numToString (Z.of_nat i + 1)
  ++ lit " ---" ++ nl ++ nl.

(** The loop [for (let i = 0; i < results.length; i++)] over the settled
    chunk answers, from index [i] on, with the current value of
    [combined]; [!results[i]] holds for [null] and for the empty string. *)
Fixpoint combine_loop (results : list (option jsstring)) (i : nat)
    (combined : jsstring) : option jsstring :=
  match results with
  | [] => Some combined
  | r :: rest =>
      match r with
      | Some ((_ :: _) as answer) =>
          combine_loop rest (S i) (combined ++ resultPart i answer)
      | _ => None
      end
  end.

(** The array [promises] filled by the loop
    [for (let i = 0; i < numSplit; i++)] of [getBrowseAnswer]: one
    completion call per chunk, all started before any is awaited. *)
Definition chunkCalls (remote : Remote) (sourceText browseQuery : jsstring)
    (maxRetry : nat) (numSplit chunkLen : Z)
  : list (Async (option jsstring)) :=
  (λ i : nat,
     let chunk := slice sourceText (Z.of_nat i * chunkLen)
                        ((Z.of_nat i + 1) * chunkLen + 1024) in
     let query := chunkQuery chunk browseQuery in
     getAiResponse remote i query maxRetry)
    <$> seq 0 (Z.to_nat numSplit).

Definition getBrowseAnswer (remote : Remote)
    (sourceText browseQuery : jsstring) (maxRetry : nat)
  : Async (option jsstring) :=
  if strlen sourceText >? charLimit then
    let numSplit := ceilDiv (strlen sourceText) charLimit in
    let chunkLen := ceilDiv (strlen sourceText) numSplit in
    Logger.log (lit "[BROWSE] Content too long ("
                ++ numToString (strlen sourceText)
                ++ lit " chars), splitting into "
                ++ numToString numSplit ++ lit " parts");;
    let promises :=
      chunkCalls remote sourceText browseQuery maxRetry numSplit chunkLen in
    results ← promiseAll (settles remote) promises;
    mret (combine_loop results 0 splitNote)
  else
    getAiResponse remote 0 (wholeQuery sourceText browseQuery) maxRetry.

Definition accessDenied : jsstring :=
  lit "Access to this URL is denied. Please try again.".
Definition browseError : jsstring :=
  lit "Browse error. Please try again.".

(** The retry loop of [getBrowseResults], from iteration [i] on.  It ends
    with [inl sourceText] when the loop is left (by [break], or because the
    budget is used up), and with [inr v] when the function returns [v] from
    inside the loop. *)
Fixpoint getBrowseResults_loop (this : t) (remote : Remote) (url : jsstring)
    (maxRetry i fuel : nat) (sourceText : jsstring)
  : Async (jsstring + jsstring) :=
  match fuel with
  | O => mret (inl sourceText)
  | S fuel' =>
      r ← readJina this remote url i;
      match r with
      | Ok text =>
          let sourceText := text in
          if truthy sourceText then mret (inl sourceText)
          else getBrowseResults_loop this remote url maxRetry (S i) fuel'
                                     sourceText
      | Throw message =>
          Logger.error (lit "[BROWSE] Error reading " ++ url
                        ++ lit " (attempt " ++ numToString (Z.of_nat i + 1)
                        ++ lit "): " ++ message);;
          if includes message (lit "Client Error")
          then mret (inr accessDenied)
          else
            (if (i <? maxRetry - 1)%nat then sleep (backoff i) else mret ());;
            getBrowseResults_loop this remote url maxRetry (S i) fuel'
                                  sourceText
      end
  end.

Definition getBrowseResults (this : t) (remote : Remote)
    (url browseQuery : jsstring) (maxRetry : nat)
  : Async jsstring :=
  r ← getBrowseResults_loop this remote url maxRetry 0 maxRetry [];
  match r with
  | inr returned => mret returned
  | inl sourceText =>
      if negb (truthy sourceText) || negb (truthy (trim sourceText))
      then mret browseError
      else
        let query := or_else browseQuery (lit "Detailed summary of the page.") in
        output ← getBrowseAnswer remote sourceText query maxRetry;
        mret (or_else (from_option trim [] output) browseError)
  end.

End SearchBrowseService.

(** ** [index]: the tools and the Durable Object's [fetch] handler *)

(** JavaScript values as produced by [request.json()] and as serialised by
    [JSON.stringify]; numbers are restricted to integers, and an object has
    each key at most once. *)
#[warnings="-register-all"]
Inductive value :=
| Undefined
| Null
| Bool (b : bool)
| Num (n : Z)
| Str (s : jsstring)
| Arr (items : list value)
| Obj (fields : list (jsstring * value)).

(** The first entry of a list of key-value pairs that has the given key. *)
Fixpoint assoc {V} (key : jsstring) (entries : list (jsstring * V))
  : option V :=
  match entries with
  | [] => None
  | (k, v) :: rest => if decide (k = key) then Some v else assoc key rest
  end.

Module MyMCP.

Import SearchBrowseService.

(** [v.key] for one of the keys read by the handler ([method], [params],
    [name], [arguments], [id]): a [TypeError] on [undefined] and [null], the
    field or [undefined] on an object, [undefined] on the other values. *)
Definition getProp (v : value) (key : string) : result value :=
  match v with
  | Undefined =>
      Throw (lit "Cannot read properties of undefined (reading '"
             ++ lit key ++ lit "')")
  | Null =>
      Throw (lit "Cannot read properties of null (reading '"
             ++ lit key ++ lit "')")
  | Obj fields =>
      Ok (default Undefined (assoc (lit key) fields))
  | _ => Ok Undefined
  end.

(** [v === "literal"] *)
Definition strictEq (v : value) (literal : string) : bool :=
  match v with
  | Str s => bool_decide (s = lit literal)
  | _ => false
  end.

(** An object literal with string keys of the source. *)
Definition obj (fields : list (string * value)) : value :=
  Obj (prod_map lit id <$> fields).
Definition str (s : string) : value := Str (lit s).

(** The handlers registered by [init]. *)
Inductive handler :=
| SearchHandler
| BrowseHandler
| MultiSearchHandler
| MultiBrowseHandler.

(** An entry of [toolsRegistry]; the zod schema plays no role in the
    bridge and is left out. *)
Record tool := {
  tool_handler : handler;
  tool_description : jsstring;
}.

(** What a session's stream controller is given to enqueue. *)
Inductive chunk :=
| Text (s : jsstring)
    (** [encoder.encode(s)] *)
| Message (payload : value)
    (** the frame [event: message], [data: JSON.stringify(payload)] *).

(** A handler started by [tools/call] and not awaited: the session whose
    controller it will write to, the handler, and the request body, from
    which [body.params.arguments] and [body.id] are read. *)
Record call := {
  call_session : jsstring;
  call_handler : handler;
  call_body : value;
}.

(** The state of the Durable Object: [sessions] maps a session id to what
    has been enqueued on its controller; [server] holds the names of the
    tools registered on [this.server], in the order of their registration;
    [toolsRegistry] is the static [Map] of tools, in insertion order. *)
Record t := {
  sessions : gmap jsstring (list chunk);
  server : list jsstring;
  toolsRegistry : list (jsstring * tool);
  started : list call;
}.

(** A step of a method of the Durable Object: it returns or throws, and
    leaves the object in a state; what was done before an exception stays
    done. *)
Definition andThen {A B} (m : t → result A * t) (k : A → t → result B * t)
  : t → result B * t :=
  λ this,
    match m this with
    | (Ok a, this) => k a this
    | (Throw message, this) => (Throw message, this)
    end.

(** [Map.prototype.get] *)
Definition registry_get (registry : list (jsstring * tool)) (name : jsstring)
  : option tool :=
  assoc name registry.

(** [Map.prototype.set]: an existing key keeps its position. *)
Fixpoint registry_set (registry : list (jsstring * tool)) (name : jsstring)
    (entry : tool) : list (jsstring * tool) :=
  match registry with
  | [] => [(name, entry)]
  | (k, v) :: rest =>
      if decide (k = name) then (k, entry) :: rest
      else (k, v) :: registry_set rest name entry
  end.

Definition textContent (text : jsstring) : value :=
  obj [("content", Arr [obj [("type", str "text"); ("text", Str text)]])].

(** The four tool handlers, on arguments of the declared types. *)
Definition search (service : SearchBrowseService.t) (remote : Remote)
    (query : jsstring) : Async value :=
  result ← getSearchResults service remote query 3;
  mret (textContent result).

Definition browse (service : SearchBrowseService.t) (remote : Remote)
    (url : jsstring) (query : option jsstring) : Async value :=
  result ← getBrowseResults service remote url (opt_or query []) 3;
  mret (textContent result).

Definition searchBlock (q res : jsstring) : jsstring :=
  lit "--- search result for [" ++ q ++ lit "] ---" ++ nl
  ++ res ++ nl ++ lit "--- end of search result ---".

Definition browseBlock (url res : jsstring) : jsstring :=
  lit "--- answer based on [" ++ url ++ lit "] ---" ++ nl
  ++ res ++ nl ++ lit "--- end of answer ---".

(** [remotes i] is what the call for the [i]-th item observes, and
    [finish i] the time at which it settles. *)
Definition multi_search (service : SearchBrowseService.t)
    (remotes : nat → Remote) (finish : nat → nat) (queries : list jsstring)
  : Async value :=
  let promises :=
    imap (λ i q,
            res ← getSearchResults service (remotes i) q 3;
            mret (searchBlock q res)) queries in
  results ← promiseAll finish promises;
  mret (textContent (join (nl ++ nl) results)).

Definition multi_browse (service : SearchBrowseService.t)
    (remotes : nat → Remote) (finish : nat → nat) (urls : list jsstring)
    (query : option jsstring) : Async value :=
  let promises :=
    imap (λ i url,
            res ← getBrowseResults service (remotes i) url (opt_or query []) 3;
            mret (browseBlock url res)) urls in
  results ← promiseAll finish promises;
  mret (textContent (join (nl ++ nl) results)).

(** [this.server.tool(name, schema, handler)].  The [McpServer] of the SDK
    is not among the sources: it keeps the tools registered on it by name
    and refuses a name that it holds already. *)
Definition serverTool (name : jsstring) (this : t) : result unit * t :=
  if decide (name ∈ server this)
  then (Throw (lit "Tool " ++ name ++ lit " is already registered"), this)
  else (Ok (),
        {| sessions := sessions this;
           server := server this ++ [name];
           toolsRegistry := toolsRegistry this;
           started := started this |}).

(** [MyMCP.toolsRegistry.set(name, { schema, handler, description })] *)
Definition registrySet (name : jsstring) (entry : tool) (this : t)
  : result unit * t :=
  (Ok (),
   {| sessions := sessions this;
      server := server this;
      toolsRegistry := registry_set (toolsRegistry this) name entry;
      started := started this |}).

(** The helper [registerTool] of [init]: the tool is registered on the
    server, then in the registry. *)
Definition registerTool (name description : string) (h : handler)
  : t → result unit * t :=
  andThen (serverTool (lit name)) (λ _,
  registrySet (lit name)
    {| tool_handler := h; tool_description := lit description |}).

(** [init]: the four registrations. *)
Definition init : t → result unit * t :=
  andThen
    (registerTool "search"
       "Search Google for a query and return brief snippets."
       SearchHandler) (λ _,
  andThen
    (registerTool "browse"
       "Browse a webpage and answer a specific query based on its content."
       BrowseHandler) (λ _,
  andThen
    (registerTool "multi_search" "Perform multiple searches in parallel."
       MultiSearchHandler) (λ _,
  registerTool "multi_browse"
    "Browse multiple webpages in parallel and answer a query."
    MultiBrowseHandler))).

(** [controller.enqueue(chunk)] for the controller of [sessionId]. *)
Definition enqueue (sessionId : jsstring) (c : chunk) (this : t) : t :=
  {| sessions := alter (λ queue, queue ++ [c]) sessionId (sessions this);
     server := server this;
     toolsRegistry := toolsRegistry this;
     started := started this |}.

(** The asynchronous closure of the [tools/call] branch is started and
    not awaited. *)
Definition start (c : call) (this : t) : t :=
  {| sessions := sessions this;
     server := server this;
     toolsRegistry := toolsRegistry this;
     started := started this ++ [c] |}.

(** The request, as far as [fetch] reads it: the path and origin of its
    URL, its method, the query parameter [sessionId] ([None] for [null]),
    and what [request.json()] settles with. *)
Record Request := {
  pathname : jsstring;
  origin : jsstring;
  method : jsstring;
  sessionId : option jsstring;
  json : result value;
}.

Inductive response :=
| TextResponse (body : jsstring) (status : Z)
    (** [new Response(body, { status })] *)
| EventStream (sessionId : jsstring)
    (** [new Response(stream, { headers })] for the stream of a session *)
| SuperFetch
    (** the outcome of [super.fetch(request)], not modelled *).

Definition accepted : response := TextResponse (lit "Accepted") 202.

(** The [inputSchema] built for a registry entry by the [tools/list]
    branch. *)
Definition inputSchema (name : jsstring) : value :=
  let stringProp (description : string) :=
    obj [("type", str "string"); ("description", str description)] in
  let arrayProp (description : string) :=
    obj [("type", str "array"); ("items", obj [("type", str "string")]);
         ("description", str description)] in
  let '(properties, required) :=
    if decide (name = lit "search") then
      ([("query", stringProp "Search query")], ["query"])
    else if decide (name = lit "browse") then
      ([("url", stringProp "The URL to browse");
        ("query", stringProp "Specific question or summary request")],
       ["url"])
    else if decide (name = lit "multi_search") then
      ([("queries", arrayProp "A list of search queries")], ["queries"])
    else if decide (name = lit "multi_browse") then
      ([("urls", arrayProp "A list of URLs to browse");
        ("query", stringProp "Specific question or summary request")],
       ["urls"])
    else ([], []) in
  obj [("type", str "object"); ("properties", obj properties);
       ("required", Arr (str <$> required))].

Definition availableTools (registry : list (jsstring * tool)) : list value :=
  (λ e, obj [("name", Str e.1);
             ("description", Str (tool_description e.2));
             ("inputSchema", inputSchema e.1)]) <$> registry.

(** The part of the [/mcp/messages] branch after the body is parsed.  A
    [TypeError] raised by a property access is not caught by [fetch]. *)
Definition dispatch (sessionId : jsstring) (body : value) (this : t)
  : result (response * t) :=
  method ← getProp body "method";
  if strictEq method "tools/list" then
    id ← getProp body "id";
    let bridgeResponse :=
      obj [("jsonrpc", str "2.0"); ("id", id);
           ("result", obj [("tools", Arr (availableTools (toolsRegistry this)))])] in
    mret (accepted, enqueue sessionId (Message bridgeResponse) this)
  else if strictEq method "tools/call" then
    params ← getProp body "params";
    name ← getProp params "name";
    let tool := match name with
                | Str name => registry_get (toolsRegistry this) name
                | _ => None
                end in
    match tool with
    | None =>
        id ← getProp body "id";
        let response :=
          obj [("jsonrpc", str "2.0"); ("id", id);
               ("error", obj [("code", Num (-32601));
                              ("message", str "Tool not found")])] in
        mret (accepted, enqueue sessionId (Message response) this)
    | Some tool =>
        mret (accepted,
              start {| call_session := sessionId;
                       call_handler := tool_handler tool;
                       call_body := body |} this)
    end
  else if strictEq method "notifications/initialized"
          || strictEq method "initialize" then
    if strictEq method "initialize" then
      id ← getProp body "id";
      let response :=
        obj [("jsonrpc", str "2.0"); ("id", id);
             ("result",
              obj [("protocolVersion", str "2024-11-05");
                   ("capabilities", obj []);
                   ("serverInfo",
                    obj [("name", str "MiniMax Search MCP Server");
                         ("version", str "1.0.0")])])] in
      mret (accepted, enqueue sessionId (Message response) this)
    else mret (accepted, this)
  else
    mret (TextResponse (lit "Method not supported in bridge mode") 501, this).

(** [fetch] of the Durable Object.  [uuid] is what [crypto.randomUUID()]
    returns.  An exception of [init], of [request.json()] or of the
    dispatcher is not caught.  The keep-alive timer and the [cancel]
    callback of the stream run outside of [fetch] and are not part of it. *)
Definition fetch (uuid : jsstring) (request : Request) (this : t)
  : result response * t :=
  if decide (pathname request = lit "/mcp/sse") then
    match init this with
    | (Throw message, this) => (Throw message, this)
    | (Ok _, this) =>
        let sessionId := uuid in
        let controller :=
          [Text (lit "event: endpoint" ++ nl);
           Text (lit "data: " ++ origin request
                 ++ lit "/mcp/messages?sessionId=" ++ sessionId ++ nl ++ nl)] in
        (Ok (EventStream sessionId),
         {| sessions := <[sessionId := controller]> (sessions this);
            server := server this;
            toolsRegistry := toolsRegistry this;
            started := started this |})
    end
  else if decide (pathname request = lit "/mcp/messages"
                  ∧ method request = lit "POST") then
    match sessionId request with
    | None | Some [] => (Ok (TextResponse (lit "Missing sessionId") 400), this)
    | Some sessionId =>
        match sessions this !! sessionId with
        | None =>
            (Ok (TextResponse (lit "Session not found or expired") 404), this)
        | Some controller =>
            match init this with
            | (Throw message, this) => (Throw message, this)
            | (Ok _, this) =>
                match json request with
                | Throw message => (Throw message, this)
                | Ok body =>
                    match dispatch sessionId body this with
                    | Ok (response, this') => (Ok response, this')
                    | Throw message => (Throw message, this)
                    end
                end
            end
        end
    end
  else (Ok SuperFetch, this).

(** The [cancel] callback of the stream of [sessionId]. *)
Definition cancel (sessionId : jsstring) (this : t) : t :=
  {| sessions := delete sessionId (sessions this);
     server := server this;
     toolsRegistry := toolsRegistry this;
     started := started this |}.

(** One tick of the keep-alive timer of [sessionId].  [alive] tells whether
    [controller.enqueue] succeeds; when it throws, the timer is cleared and
    the session is removed. *)
Definition keepAlive (sessionId : jsstring) (alive : bool) (this : t) : t :=
  if alive
  then enqueue sessionId (Text (lit ": keep-alive" ++ nl ++ nl)) this
  else {| sessions := delete sessionId (sessions this);
          server := server this;
          toolsRegistry := toolsRegistry this;
          started := started this |}.

(** [body.id], read by the closure of a started call; the body of a started
    call is an object, on which the access does not throw. *)
Definition requestId (body : value) : value :=
  match getProp body "id" with Ok id => id | Throw _ => Undefined end.

(** The closure of the [tools/call] branch, when the handler of the [k]-th
    started call settles: with a result it writes the JSON-RPC result, with
    an exception the error -32000 that carries the message of the
    exception. *)
Definition settle (k : nat) (outcome : result value) (this : t) : t :=
  match started this !! k with
  | None => this
  | Some c =>
      let response :=
        match outcome with
        | Ok result =>
            obj [("jsonrpc", str "2.0"); ("id", requestId (call_body c));
                 ("result", result)]
        | Throw message =>
            obj [("jsonrpc", str "2.0"); ("id", requestId (call_body c));
                 ("error", obj [("code", Num (-32000));
                                ("message", Str message)])]
        end in
      let this := enqueue (call_session c) (Message response) this in
      {| sessions := sessions this;
         server := server this;
         toolsRegistry := toolsRegistry this;
         started := delete k (started this) |}
  end.

End MyMCP.

(** ** Observations on traces *)


(** The requests sent to the three services, in a sequential trace. *)
Definition completionCalls (t : trace) : list jsstring :=
  omap (λ e, match e with ChatCompletion prompt => Some prompt | _ => None end) t.
Definition searchCalls (t : trace) : list jsstring :=
  omap (λ e, match e with SerperSearch query => Some query | _ => None end) t.
Definition readCalls (t : trace) : list jsstring :=
  omap (λ e, match e with JinaRead url => Some url | _ => None end) t.
Definition sleeps (t : trace) : list Z :=
  omap (λ e, match e with Sleep ms => Some ms | _ => None end) t.

(** [usesCompletion t] holds when a completion call is started anywhere in
    the trace, also inside a [Promise.all]. *)
Fixpoint usesCompletion (e : event) : bool :=
  match e with
  | ChatCompletion _ => true
  | Parallel branches => existsb (existsb usesCompletion) branches
  | _ => false
  end.

Import SearchBrowseService.

(** ** Specifications *)

(** The message thrown by a completion attempt. *)
Definition thrown (c : completion) : jsstring :=
  match c with CompletionThrows message => message | CompletionReplies _ => [] end.

Definition throws (c : completion) : Prop :=
  match c with CompletionThrows _ => True | CompletionReplies _ => False end.

(** What a failed attempt [i] of a completion call with budget [maxRetry]
    leaves in the trace: the request, the error line, and the back-off sleep
    of [1000 * 2^i] milliseconds unless the attempt was the last one. *)
Definition failedAttempt (query : jsstring) (maxRetry i : nat)
    (message : jsstring) : trace :=
  [ChatCompletion query;
   ConsoleError [lit "[ERROR]";
                 lit "[AI] Error (attempt " ++ numToString (Z.of_nat i + 1)
                 ++ lit "): " ++ message]]
  ++ (if (i <? maxRetry - 1)%nat then [Sleep (1000 * 2 ^ Z.of_nat i)] else []).

(** The traces of the failed attempts [i], ..., [i + k - 1] of a completion
    call. *)
Definition failedAttempts (remote : Remote) (call : nat) (query : jsstring)
    (maxRetry i k : nat) : trace :=
  seq i k ≫= λ j,
    failedAttempt query maxRetry j (thrown (openai remote call query j)).

(** A page read after which the retry loop of [getBrowseResults] goes on: it
    threw an error other than a client error, or it delivered an empty
    page. *)
Definition goesOn (r : result jsstring) : Prop :=
  match r with
  | Ok text => text = []
  | Throw message => includes message (lit "Client Error") = false
  end.

(** A page read that threw an error whose message contains
    ["Client Error"]. *)
Definition denied (r : result jsstring) : Prop :=
  match r with
  | Ok _ => False
  | Throw message => includes message (lit "Client Error") = true
  end.

(** The composite answer: the split note followed by the chunk answers, the
    [i]-th one between delimiters that carry the number [i + 1]. *)
Definition composite (answers : list jsstring) : jsstring :=
  splitNote ++ concat (imap resultPart answers).

(** The text that the [i]-th retrieval attempt for [query] yields: the brief
    text of the results, or nothing when the attempt throws. *)
Definition yields (this : SearchBrowseService.t) (remote : Remote)
    (query : jsstring) (i : nat) : jsstring :=
  match (searchGoogle this remote query i).1 with
  | Ok results => getBriefText results
  | Throw _ => []
  end.

(** A search without the quoted-query fallback: the retry loop, and the
    generic message when it retrieves nothing. *)
Definition primarySearch (this : SearchBrowseService.t) (remote : Remote)
    (query : jsstring) (maxRetry : nat) : Async jsstring :=
  if negb (truthy (trim query)) then mret emptyResult
  else
    sourceText ← getSearchResults_loop this remote query maxRetry 0 maxRetry [];
    mret (if truthy sourceText then sourceText else emptyResult).

(** The position of the [k]-th block in [join sep blocks]. *)
Definition blockOffset (sep : jsstring) (blocks : list jsstring) (k : nat)
  : nat :=
  (sum_list (length <$> take k blocks) + k * length sep)%nat.

(** [sub] occurs in [s] at position [p]. *)
Definition occursAt (s sub : jsstring) (p : nat) : Prop :=
  take (length sub) (drop p s) = sub.

(** The pattern [<think>[\s\S]*?</think>] matches in [s] from position [p]
    up to the closing tag at position [e]: the nearest closing tag that
    starts after the opening tag. *)
Definition thinkBlockAt (s : jsstring) (p e : nat) : Prop :=
  occursAt s openTag p ∧ (p + 7 ≤ e)%nat ∧ occursAt s closeTag e
  ∧ ∀ e', (p + 7 ≤ e' < e)%nat → ¬ occursAt s closeTag e'.

(** [thinkStripped s out]: [out] is [s] without its reasoning blocks, taken
    from left to right, each as short as possible, without overlap. *)
Inductive thinkStripped : jsstring → jsstring → Prop :=
| stripped_none s :
    (∀ p e, ¬ thinkBlockAt s p e) → thinkStripped s s
| stripped_block s p e out :
    thinkBlockAt s p e →
    (∀ q e', (q < p)%nat → ¬ thinkBlockAt s q e') →
    thinkStripped (drop (e + 8) s) out →
    thinkStripped s (take p s ++ out).

(** ** Sample inputs *)

Module Sample.

Definition service : SearchBrowseService.t :=
  {| serperApiKey := lit "key"; jinaApiKey := [] |}.

Definition page : jsstring := lit "https://example.com/page".

(** A page of 760001 characters, one more than the character budget. *)
Definition longText : jsstring := replicate (Z.to_nat 760001) 97%N.

(** Every completion succeeds at once with an empty content, searches
    find nothing and pages are empty. *)
Definition silent : Remote :=
  {| openai := λ _ _ _, CompletionReplies (Some []);
     settles := λ call, call;
     serper := λ _ _, HttpResponse true (lit "OK") (Ok (Some []));
     jina := λ _ _, HttpResponse true (lit "OK") (Ok []) |}.

(** Every completion succeeds at once with a short answer. *)
Definition talkative : Remote :=
  {| openai := λ _ _ _, CompletionReplies (Some (lit "It says so."));
     settles := λ call, (7 - call)%nat;
     serper := serper silent;
     jina := jina silent |}.

(** The first completion attempt of every call is refused, the second one
    answers after some reasoning. *)
Definition flaky : Remote :=
  {| openai := λ _ _ i,
       match i with
       | O => CompletionThrows (lit "429 Too Many Requests")
       | S _ => CompletionReplies
                  (Some (lit "<think>Is it? It is.</think> Yes, it is. "))
       end;
     settles := settles silent;
     serper := serper silent;
     jina := jina silent |}.

(** A search finds one result, unless the query contains a quote. *)
Definition literal : Remote :=
  {| openai := openai silent;
     settles := settles silent;
     serper := λ q _,
       HttpResponse true (lit "OK")
         (Ok (Some (if includes q [quote] then []
                    else [{| title := lit "Rocq";
                             link := Some (lit "https://rocq-prover.org");
                             url := None;
                             snippet := Some (lit "A proof assistant.");
                             description := None;
                             extra_snippets := None |}])));
     jina := jina silent |}.


(** The query ["rocq prover"], between quotes. *)
Definition quoted : jsstring := [quote] ++ lit "rocq prover" ++ [quote].

(** The Durable Object after one client has opened a stream. *)
Definition sessionId : jsstring := lit "3b241101-e2bb-4255-8caf-4136c566a962".

Definition fresh : MyMCP.t :=
  {| MyMCP.sessions := ∅; MyMCP.server := []; MyMCP.toolsRegistry := [];
     MyMCP.started := [] |}.

Definition opened : MyMCP.t :=
  (MyMCP.fetch sessionId
     {| MyMCP.pathname := lit "/mcp/sse";
        MyMCP.origin := lit "https://mcp.example.com";
        MyMCP.method := lit "GET";
        MyMCP.sessionId := None;
        MyMCP.json := Throw (lit "Unexpected end of JSON input") |}
     fresh).2.

(** What the stream of the opened session has received. *)
Definition endpointFrames : list MyMCP.chunk :=
  [MyMCP.Text (lit "event: endpoint" ++ nl);
   MyMCP.Text (lit "data: https://mcp.example.com/mcp/messages?sessionId="
               ++ sessionId ++ nl ++ nl)].

(** A submission to the opened session. *)
Definition post (body : value) : MyMCP.Request :=
  {| MyMCP.pathname := lit "/mcp/messages";
     MyMCP.origin := lit "https://mcp.example.com";
     MyMCP.method := lit "POST";
     MyMCP.sessionId := Some sessionId;
     MyMCP.json := Ok body |}.

(** A call of a tool that does not exist. *)
Definition callTranslate : value :=
  MyMCP.obj [("jsonrpc", MyMCP.str "2.0"); ("id", Num 7);
             ("method", MyMCP.str "tools/call");
             ("params", MyMCP.obj [("name", MyMCP.str "translate");
                                   ("arguments", MyMCP.obj [])])].

(** A call that carries no [params]. *)
Definition callWithoutParams : value :=
  MyMCP.obj [("jsonrpc", MyMCP.str "2.0"); ("id", Num 8);
             ("method", MyMCP.str "tools/call")].

(** The first read of a page delivers an empty body, the following ones
    are refused with the status text ["Client Error"]. *)
Definition forbidden : Remote :=
  {| openai := openai silent;
     settles := settles silent;
     serper := serper silent;
     jina := λ _ i,
       match i with
       | O => HttpResponse true (lit "OK") (Ok [])
       | S _ => HttpResponse false (lit "Client Error") (Ok [])
       end |}.

(** A service that was given no search key. *)
Definition keyless : SearchBrowseService.t :=
  {| serperApiKey := []; jinaApiKey := [] |}.

(** The first read of a page fails on the network, the following ones
    deliver the page; every completion answers at once. *)
Definition readable : Remote :=
  {| openai := openai talkative;
     settles := settles silent;
     serper := serper silent;
     jina := λ _ i,
       match i with
       | O => FetchThrows (lit "fetch failed")
       | S _ => HttpResponse true (lit "OK")
                  (Ok (lit "Rocq is a proof assistant."))
       end |}.

(** Every page consists of white space. *)
Definition blank : Remote :=
  {| openai := openai talkative;
     settles := settles silent;
     serper := serper silent;
     jina := λ _ _, HttpResponse true (lit "OK") (Ok (lit "  " ++ nl)) |}.

(** A request for the list of tools. *)
Definition listTools : value :=
  MyMCP.obj [("jsonrpc", MyMCP.str "2.0"); ("id", Num 1);
             ("method", MyMCP.str "tools/list")].

(** A call of the search tool. *)
Definition callSearch : value :=
  MyMCP.obj [("jsonrpc", MyMCP.str "2.0"); ("id", Num 9);
             ("method", MyMCP.str "tools/call");
             ("params", MyMCP.obj [("name", MyMCP.str "search");
                                   ("arguments",
                                    MyMCP.obj [("query", MyMCP.str "rocq")])])].

End Sample.

(** ** The life of the Durable Object *)

(** What happens to the Durable Object: a request is served, the stream of
    a session is cancelled, a keep-alive timer ticks, the handler of a
    started call settles. *)
Inductive step (this : MyMCP.t) : MyMCP.t → Prop :=
| step_fetch (uuid : jsstring) (request : MyMCP.Request) :
    step this (MyMCP.fetch uuid request this).2
| step_cancel (sessionId : jsstring) :
    step this (MyMCP.cancel sessionId this)
| step_keepAlive (sessionId : jsstring) (alive : bool) :
    step this (MyMCP.keepAlive sessionId alive this)
| step_settle (k : nat) (outcome : result value) :
    step this (MyMCP.settle k outcome this).

(** The states of an instance of the Durable Object that started with no
    session, no tool on its server and an empty registry. *)
Definition reachable (this : MyMCP.t) : Prop := rtc step Sample.fresh this.


(** * Properties *)

(** ** The built-ins *)

Section Builtins.

Lemma ceilDiv_bounds a b :
  0 < b → (ceilDiv a b - 1) * b < a ≤ ceilDiv a b * b.
Proof.
  intros Hb. unfold ceilDiv.
  pose proof (Z.div_mod (- a) b ltac:(lia)) as Hdm.
  pose proof (Z.mod_pos_bound (- a) b Hb). nia.
Qed.


Lemma ceilDiv_pos a b : 0 < b → 0 < a → 0 < ceilDiv a b.
Proof. intros Hb Ha. pose proof (ceilDiv_bounds a b Hb). nia. Qed.


End Builtins.

(** ** Substring search and the removal of reasoning blocks *)

Section Substrings.

Implicit Types s sub : jsstring.

Lemma startsWith_spec s sub :
  startsWith s sub = true ↔ take (length sub) s = sub.
Proof.
  revert s. induction sub as [|c sub IH]; intros s; [by destruct s|].
  destruct s as [|d s]; [done|]. cbn [startsWith length take].
  rewrite andb_true_iff, N.eqb_eq, IH. split.
  - intros [-> Htake]. by f_equal.
  - by intros [= -> Htake].
Qed.

Lemma occursAt_0 s sub : occursAt s sub 0 ↔ startsWith s sub = true.
Proof. unfold occursAt. by rewrite startsWith_spec. Qed.

Lemma occursAt_S c s sub p : occursAt (c :: s) sub (S p) ↔ occursAt s sub p.
Proof. done. Qed.

Lemma occursAt_drop s sub k e :
  occursAt (drop k s) sub e ↔ occursAt s sub (k + e).
Proof. unfold occursAt. by rewrite drop_drop. Qed.

(** [indexOf] finds the first occurrence. *)
Lemma indexOf_Some s sub p :
  indexOf s sub = Some p →
  occursAt s sub p ∧ ∀ q, (q < p)%nat → ¬ occursAt s sub q.
Proof.
  revert p. induction s as [|c s IH]; intros p; cbn [indexOf].
  - destruct (startsWith [] sub) eqn:E; [|done].
    intros [= <-]. split; [by apply occursAt_0|lia].
  - destruct (startsWith (c :: s) sub) eqn:E.
    + intros [= <-]. split; [by apply occursAt_0|lia].
    + destruct (indexOf s sub) as [p'|]; [|done].
      intros [= <-]. destruct (IH p' eq_refl) as [Hocc Hfirst].
      split; [done|]. intros [|q] Hq.
      * rewrite occursAt_0. congruence.
      * rewrite occursAt_S. apply Hfirst. lia.
Qed.

Lemma indexOf_None s sub p :
  sub ≠ [] → indexOf s sub = None → ¬ occursAt s sub p.
Proof.
  intros Hsub. revert p. induction s as [|c s IH]; intros p; cbn [indexOf].
  - intros _. unfold occursAt. rewrite drop_nil, take_nil. congruence.
  - destruct (startsWith (c :: s) sub) eqn:E; [done|].
    destruct (indexOf s sub) as [p'|] eqn:E'; [done|]. intros _.
    destruct p as [|p].
    + rewrite occursAt_0. congruence.
    + rewrite occursAt_S. by apply IH.
Qed.

(** [stripThink] removes the reasoning blocks as the pattern prescribes. *)
Lemma openTag_nonempty : openTag ≠ [].
Proof. done. Qed.

Lemma closeTag_nonempty : closeTag ≠ [].
Proof. done. Qed.

Lemma stripThink_spec s : thinkStripped s (stripThink s).
Proof.
  funelim (stripThink s);
    repeat match goal with H : sigmaI _ _ _ = _ |- _ => clear H end.
  - apply stripped_none. intros p e' (Hopen & _).
    match goal with H : indexOf s openTag = None |- _ =>
      exact (indexOf_None _ _ p openTag_nonempty H Hopen) end.
  - match goal with
    | Ho : indexOf s openTag = Some p,
      Hc : indexOf (drop (p + 7) s) closeTag = Some e |- _ =>
        apply indexOf_Some in Ho as [Hopen Hfirst];
        apply indexOf_Some in Hc as [Hclose Hnearest]
    end.
    replace (drop (e + 8) (drop (p + 7) s)) with (drop (p + 7 + e + 8) s)
      in * by (rewrite drop_drop; f_equal; lia).
    apply (stripped_block s p (p + 7 + e)); [| |done].
    + split; [done|]. split; [lia|]. split; [by apply occursAt_drop|].
      intros e' He' Hocc. apply (Hnearest (e' - (p + 7))%nat); [lia|].
      apply occursAt_drop. by replace (p + 7 + (e' - (p + 7)))%nat with e' by lia.
    + intros q e' Hq (Hocc & _). by apply (Hfirst q).
  - match goal with
    | Ho : indexOf s openTag = Some p,
      Hc : indexOf (drop (p + 7) s) closeTag = None |- _ =>
        apply indexOf_Some in Ho as [Hopen Hfirst];
        pose proof (λ e, indexOf_None _ _ e closeTag_nonempty Hc) as Hnone
    end.
    apply stripped_none. intros q e' (Hocc & Hle & Hclose & _).
    assert (p ≤ q)%nat.
    { destruct (decide (p ≤ q)%nat); [done|]. destruct (Hfirst q); [lia|done]. }
    apply (Hnone (e' - (p + 7))%nat). apply occursAt_drop.
    by replace (p + 7 + (e' - (p + 7)))%nat with e' by lia.
Qed.

(** The specification determines the result. *)
Lemma thinkStripped_unique s out out' :
  thinkStripped s out → thinkStripped s out' → out = out'.
Proof.
intros Hout. revert out'.
induction Hout as [s Hnone|s p e out Hblock Hleft Hrest IH]; intros out' Hout'.
- inversion Hout' as [|? p' e' ? Hblock' _ _]; subst; [done|].
  by destruct (Hnone p' e').
- inversion Hout' as [? Hnone|? p' e' out'' Hblock' Hleft' Hrest']; subst.
  + by destruct (Hnone p e).
  + assert (p = p') as <-.
    { destruct (Nat.lt_trichotomy p p') as [Hlt|[Heq|Hgt]]; [|done|].
      - by destruct (Hleft' p e Hlt).
      - by destruct (Hleft p' e' Hgt). }
    assert (e = e') as <-.
    { destruct Hblock as (_ & Hle & Hclose & Hnear).
      destruct Hblock' as (_ & Hle' & Hclose' & Hnear').
      destruct (Nat.lt_trichotomy e e') as [Hlt|[Heq|Hgt]]; [|done|].
      - destruct (Hnear' e); [lia|done].
      - destruct (Hnear e'); [lia|done]. }
    f_equal. by apply IH.
Qed.

End Substrings.

(** *** What the removal keeps *)

Lemma thinkStripped_sublist s out : thinkStripped s out → out `sublist_of` s.
Proof.
induction 1 as [s _|s p e out Hblock _ _ IH]; [done|].
destruct Hblock as (_ & Hle & _).
rewrite <- (take_drop p s) at 2. apply sublist_app; [done|].
etrans; [exact IH|].
replace (e + 8)%nat with (p + (e + 8 - p))%nat by lia.
rewrite <- drop_drop. apply sublist_drop.
Qed.

(** X1: removing the reasoning blocks only deletes characters: what is left
    is a subsequence of the content, in the same order. *)
Theorem stripThink_sublist (s : jsstring) : stripThink s `sublist_of` s.
Proof. apply thinkStripped_sublist, stripThink_spec. Qed.

Lemma includes_false s sub p :
  sub ≠ [] → includes s sub = false → ¬ occursAt s sub p.
Proof.
intros Hsub Hinc. apply indexOf_None; [done|].
unfold includes in Hinc. apply bool_decide_eq_false in Hinc.
destruct (indexOf s sub); [|done]. by destruct Hinc.
Qed.

(** X2: a content without closing tag is returned as it is: a reasoning
    block that is not closed is not removed. *)
Theorem stripThink_unclosed (s : jsstring) :
  includes s (lit "</think>") = false → stripThink s = s.
Proof.
intros Hclose. apply (thinkStripped_unique s); [apply stripThink_spec|].
apply stripped_none. intros p e (_ & _ & Hocc & _).
by apply (includes_false s closeTag e closeTag_nonempty Hclose).
Qed.

Lemma stripThink_unclosed_witness :
  stripThink (lit "<think>Let me see") = lit "<think>Let me see".
Proof. apply stripThink_unclosed. vm_compute. reflexivity. Defined.

Lemma occursAt_head s sub c p :
  occursAt s (c :: sub) p → s !! p = Some c.
Proof.
unfold occursAt. intros Hocc.
rewrite <- (Nat.add_0_r p), <- lookup_drop.
destruct (drop p s); [done|]. cbn in Hocc. by injection Hocc as ->.
Qed.

Lemma occursAt_app_length pre sub rest :
  occursAt (pre ++ sub ++ rest) sub (length pre).
Proof. unfold occursAt. by rewrite drop_app_length, take_app_length. Qed.

(** X3: a closed reasoning block is removed with its tags, the text before
    it is kept and the scan goes on behind it, when neither the text before
    the block nor the reasoning contains the character [<]. *)
Theorem stripThink_block (pre body post : jsstring) :
  60%N ∉ pre → 60%N ∉ body →
  stripThink (pre ++ lit "<think>" ++ body ++ lit "</think>" ++ post)
  = pre ++ stripThink post.
Proof.
intros Hpre Hbody.
set (s := pre ++ lit "<think>" ++ body ++ lit "</think>" ++ post).
apply (thinkStripped_unique s); [apply stripThink_spec|].
assert (Htake : take (length pre) s = pre) by apply take_app_length.
assert (Hdrop : drop (length pre + 7 + length body + 8) s = post).
{ unfold s. rewrite <- !drop_drop, drop_app_length.
  rewrite (drop_app_length' _ _ 7) by reflexivity.
  rewrite drop_app_length.
  by rewrite (drop_app_length' _ _ 8) by reflexivity. }
replace (pre ++ stripThink post)
  with (take (length pre) s
        ++ stripThink (drop (length pre + 7 + length body + 8) s))
  by (by rewrite Htake, Hdrop).
assert (Hat : ∀ q, s !! q = Some 60%N →
                   (length pre ≤ q)%nat
                   ∧ ¬ (length pre + 7 ≤ q < length pre + 7 + length body)%nat).
{ intros q Hq. split.
  - destruct (decide (length pre ≤ q)%nat); [done|]. destruct Hpre.
    apply list_elem_of_lookup. exists q. unfold s in Hq.
    by rewrite lookup_app_l in Hq by lia.
  - intros Hin. destruct Hbody. apply list_elem_of_lookup.
    exists (q - (length pre + 7))%nat. unfold s in Hq.
    rewrite lookup_app_r in Hq by lia.
    rewrite lookup_app_r in Hq by (change (length (lit "<think>")) with 7%nat; lia).
    change (length (lit "<think>")) with 7%nat in Hq.
    rewrite lookup_app_l in Hq by lia.
    by replace (q - (length pre + 7))%nat with (q - length pre - 7)%nat by lia. }
apply (stripped_block s (length pre) (length pre + 7 + length body)).
- split; [apply occursAt_app_length|]. split; [lia|]. split.
  + unfold s. rewrite !(app_assoc pre), (app_assoc (pre ++ _)).
    replace (length pre + 7 + length body)%nat
      with (length ((pre ++ lit "<think>") ++ body))
      by (rewrite !length_app; reflexivity).
    apply occursAt_app_length.
  + intros e' He' Hocc. apply occursAt_head, Hat in Hocc. lia.
- intros q e' Hq (Hocc & _). apply occursAt_head, Hat in Hocc. lia.
- apply stripThink_spec.
Qed.

Lemma stripThink_block_witness :
  stripThink (lit "Sure. " ++ lit "<think>" ++ lit "2 + 2 = 4" ++ lit "</think>"
              ++ lit "Four.")
  = lit "Sure. " ++ stripThink (lit "Four.").
Proof.
apply stripThink_block; intros H; vm_compute in H;
  repeat (apply elem_of_cons in H as [H|H]; [discriminate|]);
  by apply elem_of_nil in H.
Defined.

(** ** Asynchronous computations *)


Section AsyncFacts.

Context {A B : Type}.

Lemma bind_value (m : Async A) (f : A → Async B) :
  (m ≫= f).1 = (f m.1).1.
Proof. done. Qed.

Lemma bind_trace (m : Async A) (f : A → Async B) :
  (m ≫= f).2 = m.2 ++ (f m.1).2.
Proof. done. Qed.

(** Writing the values into their slots in any order that serves every
    index fills the array in index order. *)
Lemma fill_slots (g : nat → option A) (order : list nat) :
  ∀ (values : list (option A)) (k : nat),
    (k < length values)%nat →
    foldl (λ values i, <[i := g i]> values) values order !! k
    = if decide (k ∈ order) then Some (g k) else values !! k.
Proof.
  induction order as [|i order IH]; intros values k Hk; cbn [foldl].
  - case_decide as Hin; [by apply elem_of_nil in Hin|done].
  - rewrite IH by by rewrite length_insert.
    destruct (decide (k ∈ order)) as [Hin|Hnin].
    + rewrite decide_True; [done|]. by right.
    + destruct (decide (k = i)) as [->|Hne].
      * rewrite decide_True by left.
        by rewrite list_lookup_insert_eq.
      * rewrite decide_False by (by intros [?|?]%elem_of_cons).
        by rewrite list_lookup_insert_ne.
Qed.

Lemma fill_slots_length (g : nat → option A) (order : list nat) :
  ∀ values : list (option A),
    length (foldl (λ values i, <[i := g i]> values) values order)
    = length values.
Proof.
  induction order as [|i order IH]; intros values; simpl; [done|].
  by rewrite IH, length_insert.
Qed.

(** [Promise.all] delivers the values in the order of the promises,
    whatever the times at which they settle. *)
Lemma promiseAll_value (finish : nat → nat) (promises : list (Async A)) :
  (promiseAll finish promises).1 = promises.*1.
Proof.
  unfold promiseAll. cbn [fst].
  set (order := merge_sort _ _).
  assert (Hperm : order ≡ₚ seq 0 (length promises))
    by apply merge_sort_Permutation.
  set (values := foldl _ _ _).
  assert (Hvalues : values = Some <$> promises.*1).
  { apply list_eq. intros k. rewrite !list_lookup_fmap.
    destruct (decide (k < length promises)%nat) as [Hk|Hk].
    - unfold values. rewrite fill_slots by by rewrite length_replicate.
      rewrite decide_True; [|rewrite Hperm; apply elem_of_seq; lia].
      destruct (lookup_lt_is_Some_2 promises k Hk) as [p Hp].
      unfold Async in *. by rewrite Hp.
    - rewrite (lookup_ge_None_2 promises) by lia.
      apply lookup_ge_None_2. unfold values.
      rewrite fill_slots_length, length_replicate. lia. }
  rewrite Hvalues. clear. generalize (promises.*1). clear.
  intros l. induction l as [|a l IH]; [done|]. csimpl. by rewrite IH.
Qed.

Lemma promiseAll_trace (finish : nat → nat) (promises : list (Async A)) :
  (promiseAll finish promises).2 = [Parallel promises.*2].
Proof. done. Qed.

End AsyncFacts.

(** ** Completion calls: [getAiResponse] *)

Section Completion.

Variable remote : Remote.
Variable call : nat.
Variable query : jsstring.
Variable maxRetry : nat.

Let attempt (i : nat) : completion := openai remote call query i.
Let loop := getAiResponse_loop remote call query maxRetry.

Lemma loop_throws i fuel message :
  attempt i = CompletionThrows message →
  loop i (S fuel)
  = ((loop (S i) fuel).1,
     failedAttempt query maxRetry i message ++ (loop (S i) fuel).2).
Proof.
  intros Hi. unfold loop, attempt in *. cbn [getAiResponse_loop].
  rewrite Hi. unfold failedAttempt.
  by destruct (i <? maxRetry - 1)%nat.
Qed.

Lemma loop_replies i fuel content :
  attempt i = CompletionReplies content →
  loop i (S fuel)
  = (Some (trim (stripThink (opt_or content []))), [ChatCompletion query]).
Proof.
  intros Hi. unfold loop, attempt in *. cbn [getAiResponse_loop].
  by rewrite Hi.
Qed.

Let fails := failedAttempts remote call query maxRetry.

Lemma loop_all_throw fuel : ∀ i,
  (∀ j, (i ≤ j < i + fuel)%nat → throws (attempt j)) →
  loop i fuel = (None, fails i fuel).
Proof.
  induction fuel as [|fuel IH]; intros i Hall; [done|].
  assert (Hi : throws (attempt i)) by (apply Hall; lia).
  destruct (attempt i) as [message|] eqn:E; [|done].
  rewrite (loop_throws _ _ _ E), IH by (intros j Hj; apply Hall; lia).
  unfold fails, failedAttempts. cbn [seq mbind list_bind].
  unfold attempt in E. by rewrite E.
Qed.

Lemma loop_first_reply k content : ∀ i fuel,
  (k < fuel)%nat →
  (∀ j, (i ≤ j < i + k)%nat → throws (attempt j)) →
  attempt (i + k)%nat = CompletionReplies content →
  loop i fuel
  = (Some (trim (stripThink (opt_or content []))),
     fails i k ++ [ChatCompletion query]).
Proof.
  induction k as [|k IH]; intros i fuel Hk Hall Hreply.
  - destruct fuel as [|fuel]; [lia|]. rewrite Nat.add_0_r in Hreply.
    by rewrite (loop_replies _ _ _ Hreply).
  - destruct fuel as [|fuel]; [lia|].
    assert (Hi : throws (attempt i)) by (apply Hall; lia).
    destruct (attempt i) as [message|] eqn:E; [|done].
    rewrite (loop_throws _ _ _ E).
    rewrite (IH (S i) fuel); [|lia|intros j Hj; apply Hall; lia
                              |by rewrite <- Hreply; f_equal; lia].
    unfold fails, failedAttempts.
    cbn [seq mbind list_bind fst snd]. unfold attempt in E.
    by rewrite E, <- app_assoc.
Qed.

Lemma loop_attempts fuel : ∀ i,
  (length (completionCalls (loop i fuel).2) ≤ fuel)%nat.
Proof.
  induction fuel as [|fuel IH]; intros i; [done|].
  destruct (attempt i) as [message|content] eqn:E.
  - rewrite (loop_throws _ _ _ E). cbn [snd]. unfold completionCalls in *.
    rewrite omap_app, length_app. specialize (IH (S i)).
    unfold failedAttempt. destruct (i <? maxRetry - 1)%nat; simpl; lia.
  - rewrite (loop_replies _ _ _ E). simpl. lia.
Qed.

Lemma loop_null fuel : ∀ i,
  (loop i fuel).1 = None →
  ∀ j, (i ≤ j < i + fuel)%nat → throws (attempt j).
Proof.
  induction fuel as [|fuel IH]; intros i Hnull j Hj; [lia|].
  destruct (attempt i) as [message|content] eqn:E.
  - rewrite (loop_throws _ _ _ E) in Hnull. cbn [fst] in Hnull.
    destruct (decide (j = i)) as [->|Hne]; [by rewrite E|].
    apply (IH (S i) Hnull). lia.
  - by rewrite (loop_replies _ _ _ E) in Hnull.
Qed.

End Completion.

Section BackOff.

Variable remote : Remote.
Variable call : nat.
Variable query : jsstring.
Variable maxRetry : nat.

Lemma failedAttempts_app i k k' :
  failedAttempts remote call query maxRetry i (k + k')
  = failedAttempts remote call query maxRetry i k
    ++ failedAttempts remote call query maxRetry (i + k) k'.
Proof. unfold failedAttempts. by rewrite seq_app, bind_app. Qed.

(** Every failed attempt but the last of the budget is followed by its
    back-off sleep. *)
Lemma sleeps_failedAttempts k : ∀ i,
  (i + k ≤ maxRetry - 1)%nat →
  sleeps (failedAttempts remote call query maxRetry i k)
  = (λ j, 1000 * 2 ^ Z.of_nat j) <$> seq i k.
Proof.
  induction k as [|k IH]; intros i Hk; [done|].
  unfold failedAttempts in *. cbn [seq mbind list_bind fmap list_fmap].
  unfold sleeps in *. rewrite omap_app, IH by lia.
  unfold failedAttempt.
  by replace (i <? maxRetry - 1)%nat with true
    by (symmetry; apply Nat.ltb_lt; lia).
Qed.

End BackOff.

Lemma sleeps_failedAttempts_all remote call query (n : nat) :
  sleeps (failedAttempts remote call query n 0 n)
  = (λ j, 1000 * 2 ^ Z.of_nat j) <$> seq 0 (n - 1).
Proof.
  destruct n as [|n]; [done|].
  replace (S n) with (n + 1)%nat at 2 by lia.
  rewrite failedAttempts_app. unfold sleeps.
  rewrite omap_app. fold (sleeps (failedAttempts remote call query (S n) 0 n)).
  rewrite sleeps_failedAttempts by lia.
  unfold failedAttempts, failedAttempt. cbn [seq mbind list_bind].
  replace (0 + n <? S n - 1)%nat with false
    by (symmetry; apply Nat.ltb_ge; lia).
  cbn. rewrite app_nil_r. do 2 f_equal. lia.
Qed.

(** C8: [getAiResponse] makes at most [n] completion attempts; a failed
    attempt [i] is followed by a sleep of [1000 * 2^i] milliseconds when
    [i < n - 1]; the first reply is returned trimmed and without its
    [<think>...</think>] blocks; [null] is returned exactly when all [n]
    attempts fail. *)
Theorem getAiResponse_retry_policy
    (remote : Remote) (call : nat) (query : jsstring) (n : nat) :
  let attempt i := openai remote call query i in
  let r := getAiResponse remote call query n in
  (length (completionCalls r.2) ≤ n)%nat
  ∧ (∀ k content,
       (k < n)%nat →
       (∀ i, (i < k)%nat → throws (attempt i)) →
       attempt k = CompletionReplies content →
       ∃ stripped,
         thinkStripped (opt_or content []) stripped
         ∧ r.1 = Some (trim stripped)
         ∧ r.2 = failedAttempts remote call query n 0 k ++ [ChatCompletion query]
         ∧ sleeps r.2 = (λ i, 1000 * 2 ^ Z.of_nat i) <$> seq 0 k)
  ∧ ((∀ i, (i < n)%nat → throws (attempt i)) →
       r.1 = None
       ∧ r.2 = failedAttempts remote call query n 0 n
       ∧ sleeps r.2 = (λ i, 1000 * 2 ^ Z.of_nat i) <$> seq 0 (n - 1))
  ∧ (r.1 = None → ∀ i, (i < n)%nat → throws (attempt i)).
Proof.
  intros attempt r. unfold r, getAiResponse. repeat split.
  - apply loop_attempts.
  - intros k content Hk Hfail Hreply.
    exists (stripThink (opt_or content [])).
    rewrite (loop_first_reply remote call query n k content 0 n Hk);
      [|intros j Hj; apply Hfail; lia|done].
    split; [apply stripThink_spec|]. do 2 (split; [done|]).
    cbn [snd]. unfold sleeps. rewrite omap_app.
    fold (sleeps (failedAttempts remote call query n 0 k)).
    rewrite sleeps_failedAttempts by lia. cbn. by rewrite app_nil_r.
  - by rewrite loop_all_throw by (intros j Hj; apply H; lia).
  - by rewrite loop_all_throw by (intros j Hj; apply H; lia).
  - rewrite loop_all_throw by (intros j Hj; apply H; lia).
    apply sleeps_failedAttempts_all.
  - intros Hnull i Hi. apply (loop_null remote call query n n 0 Hnull). lia.
Qed.

(** A run: the first attempt is refused, the call sleeps one second, and the
    second attempt answers; the reasoning block and the outer white space
    are removed. *)
Example getAiResponse_second_attempt :
  getAiResponse Sample.flaky 0 (lit "Is it?") 2
  = (Some (lit "Yes, it is."),
     [ChatCompletion (lit "Is it?");
      ConsoleError [lit "[ERROR]";
                    lit "[AI] Error (attempt 1): 429 Too Many Requests"];
      Sleep 1000;
      ChatCompletion (lit "Is it?")]).
Proof. vm_compute. reflexivity. Qed.

(** ** The answerer pipeline: [getBrowseAnswer] *)

Section Answerer.

Variable remote : Remote.
Variables sourceText browseQuery : jsstring.
Variable maxRetry : nat.

Let L := strlen sourceText.
Let numSplit := ceilDiv L charLimit.
Let chunkLen := ceilDiv L numSplit.
Let promises :=
  chunkCalls remote sourceText browseQuery maxRetry numSplit chunkLen.

Lemma charLimit_pos : 0 < charLimit.
Proof. done. Qed.

(** The split branch: the value is the reduction of the settled chunk
    answers, and the trace is one log line followed by the join of the
    chunk calls. *)
Lemma getBrowseAnswer_split :
  L > charLimit →
  (getBrowseAnswer remote sourceText browseQuery maxRetry).1
  = combine_loop promises.*1 0 splitNote
  ∧ ∃ info,
      (getBrowseAnswer remote sourceText browseQuery maxRetry).2
      = [ConsoleLog info; Parallel promises.*2].
Proof.
  intros HL. unfold getBrowseAnswer. fold L.
  replace (L >? charLimit) with true by (symmetry; apply Z.gtb_lt; lia).
  fold numSplit. fold chunkLen. fold promises. split.
  - rewrite !bind_value. cbn [mret Async_ret fst].
    by rewrite promiseAll_value.
  - rewrite !bind_trace, promiseAll_trace. cbn [mret Async_ret snd].
    rewrite app_nil_r. by eexists.
Qed.

Lemma numSplit_pos : L > charLimit → 0 < numSplit.
Proof. intros. apply ceilDiv_pos; [done|]. pose proof charLimit_pos. lia. Qed.


(** The chunks start strictly inside the text. *)
Lemma chunk_start_lt (i : nat) :
  L > charLimit → Z.of_nat i < numSplit → Z.of_nat i * chunkLen < L.
Proof.
  intros HL Hi. pose proof charLimit_pos as HC.
  pose proof (numSplit_pos HL) as Hn.
  pose proof (ceilDiv_bounds L charLimit HC) as Hb. fold numSplit in Hb.
  pose proof (ceilDiv_bounds L numSplit Hn) as Hk. fold chunkLen in Hk.
  assert (0 < chunkLen) by (apply ceilDiv_pos; lia).
  assert (chunkLen ≤ charLimit) by nia.
  apply Z.le_lt_trans with ((numSplit - 1) * charLimit); [|lia].
  apply Z.le_trans with ((numSplit - 1) * chunkLen).
  - apply Z.mul_le_mono_nonneg_r; lia.
  - apply Z.mul_le_mono_nonneg_l; lia.
Qed.

(** The chunks cover the text: the last one reaches its end. *)
Lemma chunks_cover : L > charLimit → L ≤ numSplit * chunkLen.
Proof.
  intros HL. pose proof (numSplit_pos HL) as Hn.
  pose proof (ceilDiv_bounds L numSplit Hn) as Hk. fold chunkLen in Hk. lia.
Qed.

End Answerer.

(** [slice] between two non-negative positions, position by position. *)
Lemma slice_spec (s : jsstring) (lo hi : Z) :
  0 ≤ lo ≤ hi →
  strlen (slice s lo hi) = Z.min hi (strlen s) - Z.min lo (strlen s)
  ∧ ∀ j : nat,
      Z.of_nat j < strlen (slice s lo hi) →
      slice s lo hi !! j = s !! (Z.to_nat lo + j)%nat.
Proof.
  intros Hlh. unfold slice.
  replace (lo <? 0) with false by (symmetry; apply Z.ltb_ge; lia).
  replace (hi <? 0) with false by (symmetry; apply Z.ltb_ge; lia).
  set (len := strlen s). unfold strlen in *.
  assert (Hlen : Z.of_nat (length (take (Z.to_nat (Z.max (Z.min hi len - Z.min lo len) 0))
                      (drop (Z.to_nat (Z.min lo len)) s)))
          = Z.min hi len - Z.min lo len).
  { rewrite length_take, length_drop. subst len. lia. }
  split; [done|]. intros j Hj. rewrite Hlen in Hj.
  rewrite lookup_take_lt by lia. rewrite lookup_drop.
  f_equal. subst len. lia.
Qed.



(** The reduce loop gives up at the first answer that is [null] or empty. *)
Lemma combine_loop_falsy (results : list (option jsstring)) : ∀ i combined k,
  results !! k = Some None ∨ results !! k = Some (Some []) →
  combine_loop results i combined = None.
Proof.
induction results as [|r results IH]; intros i combined k Hk.
- by destruct Hk as [Hk|Hk].
- destruct k as [|k]; cbn [lookup list_lookup] in Hk.
  + by destruct Hk as [[= ->]|[= ->]].
  + cbn [combine_loop]. destruct r as [[|c answer]|]; [done| |done].
    by apply (IH _ _ k).
Qed.

(** Otherwise it appends one delimited part per answer, numbered from 1. *)
Lemma combine_loop_answers (answers : list jsstring) : ∀ i combined,
  Forall (λ a, a ≠ []) answers →
  combine_loop (Some <$> answers) i combined
  = Some (combined ++ concat (imap (λ j a, resultPart (i + j) a) answers)).
Proof.
induction answers as [|a answers IH]; intros i combined Hall.
- cbn. by rewrite app_nil_r.
- apply Forall_cons in Hall as [Ha Hall].
  destruct a as [|c a]; [done|]. cbn [fmap list_fmap combine_loop].
  rewrite (IH (S i)) by done. cbn [imap concat].
  rewrite Nat.add_0_r, <- app_assoc. do 4 f_equal.
  apply imap_ext. intros j b _. cbn. f_equal. lia.
Qed.

(** A completion call with a positive budget starts with its request. *)
Lemma getAiResponse_head remote call query maxRetry :
  (0 < maxRetry)%nat →
  ∃ rest,
    (getAiResponse remote call query maxRetry).2 = ChatCompletion query :: rest.
Proof.
intros Hn. unfold getAiResponse. destruct maxRetry as [|n]; [lia|].
cbn [getAiResponse_loop].
destruct (openai remote call query 0); by eexists.
Qed.

(** C2: in the split branch, with [numSplit = ceil(L / C)] and
    [chunkLen = ceil(L / numSplit)], the [i]-th completion call is given the
    characters of the text from position [i * chunkLen] up to, and without,
    position [(i + 1) * chunkLen + 1024], or up to the end of the text when
    it ends before; the last chunk reaches the end of the text. *)
Theorem getBrowseAnswer_chunk_slices
    (remote : Remote) (sourceText browseQuery : jsstring) (maxRetry i : nat) :
  let L := strlen sourceText in
  let numSplit := ceilDiv L charLimit in
  let chunkLen := ceilDiv L numSplit in
  let start := Z.of_nat i * chunkLen in
  let stop := (Z.of_nat i + 1) * chunkLen + 1024 in
  L > charLimit →
  Z.of_nat i < numSplit →
  ∃ info branches chunk,
    (getBrowseAnswer remote sourceText browseQuery maxRetry).2
    = [ConsoleLog info; Parallel branches]
    ∧ branches !! i
      = Some (getAiResponse remote i (chunkQuery chunk browseQuery) maxRetry).2
    ∧ ((0 < maxRetry)%nat →
       ∃ rest,
         branches !! i
         = Some (ChatCompletion (chunkQuery chunk browseQuery) :: rest))
    ∧ strlen chunk = Z.min stop L - start
    ∧ (∀ j : nat,
         Z.of_nat j < strlen chunk →
         chunk !! j = sourceText !! (Z.to_nat start + j)%nat)
    ∧ (Z.of_nat i = numSplit - 1 → chunk = drop (Z.to_nat start) sourceText).
Proof.
intros L numSplit chunkLen start stop HL Hi.
destruct (getBrowseAnswer_split remote sourceText browseQuery maxRetry HL)
  as [_ [info Htrace]].
pose proof (chunk_start_lt sourceText i HL Hi) as Hstart.
fold L numSplit chunkLen start in Hstart.
assert (0 < chunkLen) as Hlen.
{ apply ceilDiv_pos; [by apply numSplit_pos|]. pose proof charLimit_pos.
  unfold L in *. lia. }
assert (0 ≤ start ≤ stop) as Horder by (unfold start, stop; nia).
destruct (slice_spec sourceText start stop Horder) as [Hsize Hchars].
fold L in Hsize. rewrite (Z.min_l start L) in Hsize by lia.
exists info,
  (chunkCalls remote sourceText browseQuery maxRetry numSplit chunkLen).*2,
  (slice sourceText start stop).
split; [exact Htrace|].
assert (Hbranch :
  (chunkCalls remote sourceText browseQuery maxRetry numSplit chunkLen).*2 !! i
  = Some (getAiResponse remote i
            (chunkQuery (slice sourceText start stop) browseQuery) maxRetry).2).
{ unfold chunkCalls. rewrite !list_lookup_fmap.
  by rewrite lookup_seq_lt by lia. }
split; [exact Hbranch|]. split; [|split; [exact Hsize|split; [exact Hchars|]]].
- intros Hn.
  destruct (getAiResponse_head remote i
              (chunkQuery (slice sourceText start stop) browseQuery)
              maxRetry Hn) as [rest Hrest].
  exists rest. by rewrite Hbranch, Hrest.
- intros Hlast.
  pose proof (chunks_cover sourceText HL) as Hcover.
  fold L numSplit chunkLen in Hcover.
  unfold slice. fold L.
  replace (start <? 0) with false by (symmetry; apply Z.ltb_ge; lia).
  replace (stop <? 0) with false by (symmetry; apply Z.ltb_ge; lia).
  rewrite (Z.min_l start L) by lia.
  rewrite (Z.min_r stop L) by (unfold stop; nia).
  apply take_ge. rewrite length_drop. unfold L, strlen. lia.
Qed.

Lemma getBrowseAnswer_chunk_slices_witness :
  let L := strlen Sample.longText in
  let numSplit := ceilDiv L charLimit in
  let chunkLen := ceilDiv L numSplit in
  let start := 1 * chunkLen in
  let stop := (1 + 1) * chunkLen + 1024 in
  ∃ info branches chunk,
    (getBrowseAnswer Sample.silent Sample.longText (lit "q") 2).2
    = [ConsoleLog info; Parallel branches]
    ∧ branches !! 1%nat
      = Some (getAiResponse Sample.silent 1 (chunkQuery chunk (lit "q")) 2).2
    ∧ ((0 < 2)%nat →
       ∃ rest,
         branches !! 1%nat
         = Some (ChatCompletion (chunkQuery chunk (lit "q")) :: rest))
    ∧ strlen chunk = Z.min stop L - start
    ∧ (∀ j : nat,
         Z.of_nat j < strlen chunk →
         chunk !! j = Sample.longText !! (Z.to_nat start + j)%nat)
    ∧ (1 = numSplit - 1 → chunk = drop (Z.to_nat start) Sample.longText).
Proof.
apply (getBrowseAnswer_chunk_slices
         Sample.silent Sample.longText (lit "q") 2 1);
  vm_compute; reflexivity.
Defined.

(** C3, as amended: in the split branch the answer is [null] as soon as one
    chunk answer is [null] or the empty string, and otherwise it is the
    split note followed by all chunk answers, each between its part
    delimiters; a partial composite is never returned. *)
Theorem getBrowseAnswer_all_or_nothing
    (remote : Remote) (sourceText browseQuery : jsstring) (maxRetry : nat) :
  let L := strlen sourceText in
  let numSplit := ceilDiv L charLimit in
  let chunkLen := ceilDiv L numSplit in
  let results :=
    (chunkCalls remote sourceText browseQuery maxRetry numSplit chunkLen).*1 in
  let answer := (getBrowseAnswer remote sourceText browseQuery maxRetry).1 in
  L > charLimit →
  ((∃ i, results !! i = Some None ∨ results !! i = Some (Some [])) →
   answer = None)
  ∧ (∀ answers,
       results = Some <$> answers →
       Forall (λ a, a ≠ []) answers →
       answer = Some (composite answers)).
Proof.
intros L numSplit chunkLen results answer HL.
destruct (getBrowseAnswer_split remote sourceText browseQuery maxRetry HL)
  as [Hvalue _].
unfold answer. rewrite Hvalue. fold L numSplit chunkLen results. split.
- intros [i Hi]. by apply (combine_loop_falsy _ _ _ i).
- intros answers -> Hall. by rewrite combine_loop_answers.
Qed.

Lemma getBrowseAnswer_all_or_nothing_witness :
  let L := strlen Sample.longText in
  let numSplit := ceilDiv L charLimit in
  let chunkLen := ceilDiv L numSplit in
  let results :=
    (chunkCalls Sample.talkative Sample.longText (lit "q") 2 numSplit chunkLen).*1 in
  let answer := (getBrowseAnswer Sample.talkative Sample.longText (lit "q") 2).1 in
  ((∃ i, results !! i = Some None ∨ results !! i = Some (Some [])) →
   answer = None)
  ∧ (∀ answers,
       results = Some <$> answers →
       Forall (λ a, a ≠ []) answers →
       answer = Some (composite answers)).
Proof.
apply (getBrowseAnswer_all_or_nothing
         Sample.talkative Sample.longText (lit "q") 2).
vm_compute. reflexivity.
Defined.

(** C3, as stated, fails: both chunk calls of this run succeed, none has
    exhausted its retries, and still the answer is [null] and not the
    concatenation of the chunk answers. *)
Lemma getBrowseAnswer_all_or_nothing_counterexample :
  let L := strlen Sample.longText in
  let numSplit := ceilDiv L charLimit in
  let chunkLen := ceilDiv L numSplit in
  let results :=
    (chunkCalls Sample.silent Sample.longText (lit "q") 2 numSplit chunkLen).*1 in
  let answer := (getBrowseAnswer Sample.silent Sample.longText (lit "q") 2).1 in
  L > charLimit
  ∧ results = [Some []; Some []]
  ∧ Forall (λ r, r ≠ None) results
  ∧ answer = None
  ∧ answer ≠ Some (composite [[]; []]).
Proof.
cbv zeta.
assert (Hresults :
  (chunkCalls Sample.silent Sample.longText (lit "q") 2
     (ceilDiv (strlen Sample.longText) charLimit)
     (ceilDiv (strlen Sample.longText)
        (ceilDiv (strlen Sample.longText) charLimit))).*1
  = [Some []; Some []]) by (vm_compute; reflexivity).
assert (Hanswer :
  (getBrowseAnswer Sample.silent Sample.longText (lit "q") 2).1 = None)
  by (vm_compute; reflexivity).
rewrite Hresults, Hanswer.
split; [vm_compute; reflexivity|]. split; [reflexivity|].
split; [by repeat constructor|]. split; [reflexivity|discriminate].
Qed.

(** C10: in the split branch a chunk call that succeeds with the empty
    string makes the whole answer [null], like a failed call. *)
Theorem getBrowseAnswer_empty_chunk_answer
    (remote : Remote) (sourceText browseQuery : jsstring) (maxRetry i : nat) :
  let L := strlen sourceText in
  let numSplit := ceilDiv L charLimit in
  let chunkLen := ceilDiv L numSplit in
  let results :=
    (chunkCalls remote sourceText browseQuery maxRetry numSplit chunkLen).*1 in
  L > charLimit →
  results !! i = Some (Some []) →
  (getBrowseAnswer remote sourceText browseQuery maxRetry).1 = None.
Proof.
intros L numSplit chunkLen results HL Hi.
destruct (getBrowseAnswer_split remote sourceText browseQuery maxRetry HL)
  as [-> _].
apply (combine_loop_falsy _ _ _ i). by right.
Qed.

Lemma getBrowseAnswer_empty_chunk_answer_witness :
  (getBrowseAnswer Sample.silent Sample.longText (lit "q") 2).1 = None.
Proof.
apply (getBrowseAnswer_empty_chunk_answer
         Sample.silent Sample.longText (lit "q") 2 0);
  vm_compute; reflexivity.
Defined.

(** *** The chunks as parts of the text *)



(** X5: no character of the text is left out: the character at position
    [p] is given to the completion call of chunk [p / chunkLen], at
    position [p mod chunkLen] of that chunk. *)
Theorem getBrowseAnswer_chunks_cover_text
    (remote : Remote) (sourceText browseQuery : jsstring) (maxRetry p : nat) :
  let L := strlen sourceText in
  let numSplit := ceilDiv L charLimit in
  let chunkLen := ceilDiv L numSplit in
  let i := Z.to_nat (Z.of_nat p / chunkLen) in
  let chunk := slice sourceText (Z.of_nat i * chunkLen)
                     ((Z.of_nat i + 1) * chunkLen + 1024) in
  L > charLimit →
  Z.of_nat p < L →
  Z.of_nat i < numSplit
  ∧ chunkCalls remote sourceText browseQuery maxRetry numSplit chunkLen !! i
    = Some (getAiResponse remote i (chunkQuery chunk browseQuery) maxRetry)
  ∧ chunk !! Z.to_nat (Z.of_nat p mod chunkLen) = sourceText !! p
  ∧ is_Some (sourceText !! p).
Proof.
intros L numSplit chunkLen i chunk HL Hp.
pose proof charLimit_pos as HC.
pose proof (numSplit_pos sourceText HL) as Hn. fold L numSplit in Hn.
pose proof (chunks_cover sourceText HL) as Hcover.
fold L numSplit chunkLen in Hcover.
assert (0 < chunkLen) as Hlen by (apply ceilDiv_pos; lia).
pose proof (Z.div_mod (Z.of_nat p) chunkLen ltac:(lia)) as Hdm.
pose proof (Z.mod_pos_bound (Z.of_nat p) chunkLen Hlen) as Hmod.
assert (0 ≤ Z.of_nat p / chunkLen) as Hq by (apply Z.div_pos; lia).
assert (Hi : Z.of_nat i = Z.of_nat p / chunkLen) by (unfold i; lia).
assert (Z.of_nat i < numSplit) as Hlt.
{ rewrite Hi. apply Z.div_lt_upper_bound; [done|]. lia. }
split; [done|]. split.
{ unfold chunkCalls. rewrite list_lookup_fmap.
  by rewrite lookup_seq_lt by lia. }
destruct (slice_spec sourceText (Z.of_nat i * chunkLen)
            ((Z.of_nat i + 1) * chunkLen + 1024) ltac:(nia)) as [Hsize Hchars].
fold L chunk in Hsize, Hchars. split.
- rewrite Hchars by (rewrite Hsize; nia). f_equal. nia.
- apply lookup_lt_is_Some. unfold L, strlen in Hp. lia.
Qed.

Lemma getBrowseAnswer_chunks_cover_text_witness :
  let remote := Sample.silent in
  let sourceText := Sample.longText in
  let browseQuery := lit "q" in
  let p := Z.to_nat 500000 in
  let L := strlen sourceText in
  let numSplit := ceilDiv L charLimit in
  let chunkLen := ceilDiv L numSplit in
  let i := Z.to_nat (Z.of_nat p / chunkLen) in
  let chunk := slice sourceText (Z.of_nat i * chunkLen)
                     ((Z.of_nat i + 1) * chunkLen + 1024) in
  Z.of_nat i < numSplit
  ∧ chunkCalls remote sourceText browseQuery 2 numSplit chunkLen !! i
    = Some (getAiResponse remote i (chunkQuery chunk browseQuery) 2)
  ∧ chunk !! Z.to_nat (Z.of_nat p mod chunkLen) = sourceText !! p
  ∧ is_Some (sourceText !! p).
Proof.
apply (getBrowseAnswer_chunks_cover_text
         Sample.silent Sample.longText (lit "q") 2 (Z.to_nat 500000));
  vm_compute; reflexivity.
Defined.

(** ** Page reads: [getBrowseResults] *)

Section Browse.

Variable this : SearchBrowseService.t.
Variable remote : Remote.
Variable url : jsstring.
Variable maxRetry : nat.

Let read (i : nat) : result jsstring := (readJina this remote url i).1.
Let loop := getBrowseResults_loop this remote url maxRetry.

Lemma readJina_trace i : (readJina this remote url i).2 = [JinaRead url].
Proof. done. Qed.

Lemma browse_loop_step i fuel sourceText :
  loop i (S fuel) sourceText
  = match read i with
    | Ok text =>
        if truthy text then (inl text, [JinaRead url])
        else ((loop (S i) fuel text).1,
              [JinaRead url] ++ (loop (S i) fuel text).2)
    | Throw message =>
        let line :=
          ConsoleError
            [lit "[ERROR]";
             lit "[BROWSE] Error reading " ++ url ++ lit " (attempt "
             ++ numToString (Z.of_nat i + 1) ++ lit "): " ++ message] in
        if includes message (lit "Client Error")
        then (inr accessDenied, [JinaRead url; line])
        else ((loop (S i) fuel sourceText).1,
              [JinaRead url; line]
              ++ (if (i <? maxRetry - 1)%nat then [Sleep (backoff i)] else [])
              ++ (loop (S i) fuel sourceText).2)
    end.
Proof.
  unfold loop, read. cbn [getBrowseResults_loop].
  rewrite (surjective_pairing (readJina this remote url i)) at 1.
  rewrite readJina_trace.
  destruct (readJina this remote url i).1 as [text|message];
    unfold mbind at 1, Async_bind at 1; cbn [fst snd].
  - destruct (truthy text); reflexivity.
  - destruct (includes message (lit "Client Error")); [reflexivity|].
    destruct (i <? maxRetry - 1)%nat; reflexivity.
Qed.

Lemma browse_loop_denied k : ∀ i fuel sourceText,
  (k < fuel)%nat →
  (∀ j, (i ≤ j < i + k)%nat → goesOn (read j)) →
  denied (read (i + k)%nat) →
  ∃ t line,
    loop i fuel sourceText
    = (inr accessDenied, t ++ [JinaRead url; ConsoleError line])
    ∧ readCalls t = replicate k url
    ∧ forallb (λ e, negb (usesCompletion e)) t = true.
Proof.
  induction k as [|k IH]; intros i fuel sourceText Hk Hgo Hdeny;
    (destruct fuel as [|fuel]; [lia|]); rewrite browse_loop_step.
  - rewrite Nat.add_0_r in Hdeny.
    destruct (read i) as [text|message]; [done|]. unfold denied in Hdeny.
    rewrite Hdeny. exists []. eexists.
    split; [reflexivity|split; reflexivity].
  - assert (Hi : goesOn (read i)) by (apply Hgo; lia).
    destruct (read i) as [text|message]; unfold goesOn in Hi.
    + subst text. cbn [truthy].
      destruct (IH (S i) fuel []) as (t & line & -> & Hreads & Hnone);
        [lia|intros j Hj; apply Hgo; lia
        |replace (S i + k)%nat with (i + S k)%nat by lia; exact Hdeny|].
      exists ([JinaRead url] ++ t), line. cbn [fst snd].
      split; [rewrite <- app_assoc; reflexivity|].
      unfold readCalls in *. rewrite omap_app, forallb_app, Hreads, Hnone.
      split; reflexivity.
    + rewrite Hi.
      destruct (IH (S i) fuel sourceText)
        as (t & line & -> & Hreads & Hnone);
        [lia|intros j Hj; apply Hgo; lia
        |replace (S i + k)%nat with (i + S k)%nat by lia; exact Hdeny|].
      cbv zeta. cbn [fst snd].
      match goal with
      | |- ∃ _ _, (_, ?pre ++ ?mid ++ _) = _ ∧ _ =>
          exists (pre ++ mid ++ t), line
      end.
      split; [rewrite <- !app_assoc; reflexivity|].
      unfold readCalls in *.
      rewrite !omap_app, !forallb_app, Hreads, Hnone.
      destruct (i <? maxRetry - 1)%nat; split; reflexivity.
Qed.

End Browse.

(** C9: when a page read fails with an error whose message contains
    ["Client Error"], [getBrowseResults] returns the access-denied message
    at once: no further read is made, no sleep follows, and no completion
    call is started. *)
Theorem getBrowseResults_client_error
    (this : SearchBrowseService.t) (remote : Remote)
    (url browseQuery : jsstring) (maxRetry k : nat) :
  let read i := (readJina this remote url i).1 in
  let r := getBrowseResults this remote url browseQuery maxRetry in
  (k < maxRetry)%nat →
  (∀ i, (i < k)%nat → goesOn (read i)) →
  denied (read k) →
  r.1 = lit "Access to this URL is denied. Please try again."
  ∧ readCalls r.2 = replicate (S k) url
  ∧ (∃ t line, r.2 = t ++ [JinaRead url; ConsoleError line])
  ∧ forallb (λ e, negb (usesCompletion e)) r.2 = true.
Proof.
  intros read r Hk Hgo Hdeny.
  destruct (browse_loop_denied this remote url maxRetry k 0 maxRetry [] Hk)
    as (t & line & Hloop & Hreads & Hnone);
    [intros j Hj; apply Hgo; lia|exact Hdeny|].
  unfold r, getBrowseResults. rewrite Hloop.
  unfold mbind, Async_bind. cbn [fst snd mret Async_ret].
  rewrite app_nil_r. split; [reflexivity|]. split; [|split].
  - unfold readCalls in *. rewrite omap_app, Hreads.
    replace (S k) with (k + 1)%nat by lia. by rewrite replicate_add.
  - by exists t, line.
  - by rewrite forallb_app, Hnone.
Qed.

Lemma getBrowseResults_client_error_witness :
  let r := getBrowseResults Sample.service Sample.forbidden Sample.page [] 3 in
  r.1 = lit "Access to this URL is denied. Please try again."
  ∧ readCalls r.2 = replicate 2 Sample.page
  ∧ (∃ t line, r.2 = t ++ [JinaRead Sample.page; ConsoleError line])
  ∧ forallb (λ e, negb (usesCompletion e)) r.2 = true.
Proof.
  apply (getBrowseResults_client_error
           Sample.service Sample.forbidden Sample.page [] 3 1).
  - lia.
  - intros i Hi. replace i with 0%nat by lia. reflexivity.
  - vm_compute. reflexivity.
Defined.

(** *** The outcomes of a page read *)

Section BrowseLoop.

Variable this : SearchBrowseService.t.
Variable remote : Remote.
Variable url : jsstring.
Variable maxRetry : nat.

Let read (i : nat) : result jsstring := (readJina this remote url i).1.
Let loop := getBrowseResults_loop this remote url maxRetry.

(** The loop is left with the first page that is not empty. *)
Lemma browse_loop_page k text : ∀ i fuel sourceText,
  (k < fuel)%nat →
  (∀ j, (i ≤ j < i + k)%nat → goesOn (read j)) →
  read (i + k)%nat = Ok text →
  text ≠ [] →
  ∃ t,
    loop i fuel sourceText = (inl text, t)
    ∧ readCalls t = replicate (S k) url
    ∧ forallb (λ e, negb (usesCompletion e)) t = true.
Proof.
induction k as [|k IH]; intros i fuel sourceText Hk Hgo Hpage Htext;
  (destruct fuel as [|fuel]; [lia|]); unfold loop; rewrite browse_loop_step;
  fold loop; fold (read i).
- rewrite Nat.add_0_r in Hpage. rewrite Hpage.
  destruct text as [|c text]; [done|]. cbn [truthy].
  eexists. split; [reflexivity|]. split; reflexivity.
- assert (Hi : goesOn (read i)) by (apply Hgo; lia).
  replace (i + S k)%nat with (S i + k)%nat in Hpage by lia.
  destruct (read i) as [empty|message]; unfold goesOn in Hi.
  + subst empty. cbn [truthy].
    destruct (IH (S i) fuel []) as (t & -> & Hreads & Hnone);
      [lia|intros j Hj; apply Hgo; lia|done|done|].
    exists ([JinaRead url] ++ t). cbn [fst snd]. split; [reflexivity|].
    unfold readCalls in *. rewrite omap_app, forallb_app, Hreads, Hnone.
    split; reflexivity.
  + rewrite Hi.
    destruct (IH (S i) fuel sourceText) as (t & -> & Hreads & Hnone);
      [lia|intros j Hj; apply Hgo; lia|done|done|].
    cbv zeta. cbn [fst snd].
    match goal with
    | |- ∃ _, (_, ?pre ++ ?mid ++ _) = _ ∧ _ => exists (pre ++ mid ++ t)
    end.
    split; [reflexivity|]. unfold readCalls in *.
    rewrite !omap_app, !forallb_app, Hreads, Hnone.
    destruct (i <? maxRetry - 1)%nat; split; reflexivity.
Qed.

(** The loop uses up its budget when no attempt delivers a page. *)
Lemma browse_loop_none fuel : ∀ i,
  (∀ j, (i ≤ j < i + fuel)%nat → goesOn (read j)) →
  ∃ t,
    loop i fuel [] = (inl [], t)
    ∧ readCalls t = replicate fuel url
    ∧ forallb (λ e, negb (usesCompletion e)) t = true.
Proof.
induction fuel as [|fuel IH]; intros i Hgo.
- exists []. split; [reflexivity|]. split; reflexivity.
- unfold loop. rewrite browse_loop_step. fold loop. fold (read i).
  assert (Hi : goesOn (read i)) by (apply Hgo; lia).
  destruct (IH (S i)) as (t & Hloop & Hreads & Hnone);
    [intros j Hj; apply Hgo; lia|].
  destruct (read i) as [empty|message]; unfold goesOn in Hi.
  + subst empty. cbn [truthy]. rewrite Hloop.
    exists ([JinaRead url] ++ t). cbn [fst snd]. split; [reflexivity|].
    unfold readCalls in *. rewrite omap_app, forallb_app, Hreads, Hnone.
    split; reflexivity.
  + rewrite Hi, Hloop. cbv zeta. cbn [fst snd].
    match goal with
    | |- ∃ _, (_, ?pre ++ ?mid ++ _) = _ ∧ _ => exists (pre ++ mid ++ t)
    end.
    split; [reflexivity|]. unfold readCalls in *.
    rewrite !omap_app, !forallb_app, Hreads, Hnone.
    destruct (i <? maxRetry - 1)%nat; split; reflexivity.
Qed.

(** The only value returned from inside the loop is the access-denied
    message, and a page with which the loop is left was read as it is. *)
Lemma browse_loop_returns fuel : ∀ i sourceText v,
  (loop i fuel sourceText).1 = inr v → v = accessDenied.
Proof.
induction fuel as [|fuel IH]; intros i sourceText v; [done|].
unfold loop. rewrite browse_loop_step. fold loop. fold (read i).
destruct (read i) as [text|message].
- destruct (truthy text); [done|]. cbn [fst]. apply IH.
- cbv zeta. destruct (includes message (lit "Client Error")).
  + cbn [fst]. by intros [= <-].
  + cbn [fst]. apply IH.
Qed.

End BrowseLoop.

Lemma or_else_truthy a b : truthy b = true → truthy (or_else a b) = true.
Proof. intros Hb. unfold or_else. by destruct (truthy a) eqn:Ha. Qed.

(** X6: [getBrowseResults] returns the access-denied message, the browse
    error message, or the trimmed, non-empty answer of the answerer
    pipeline; it never returns the empty string. *)
Theorem getBrowseResults_outcomes
    (this : SearchBrowseService.t) (remote : Remote)
    (url browseQuery : jsstring) (maxRetry : nat) :
  let r := (getBrowseResults this remote url browseQuery maxRetry).1 in
  r ≠ []
  ∧ (r = lit "Access to this URL is denied. Please try again."
     ∨ r = lit "Browse error. Please try again."
     ∨ ∃ page query out,
         (getBrowseAnswer remote page query maxRetry).1 = Some out
         ∧ r = trim out ∧ trim out ≠ []).
Proof.
intros r.
assert (Hforms :
  r = accessDenied ∨ r = browseError
  ∨ ∃ page query out,
      (getBrowseAnswer remote page query maxRetry).1 = Some out
      ∧ r = trim out ∧ trim out ≠ []).
{ unfold r, getBrowseResults. rewrite bind_value.
  destruct (getBrowseResults_loop this remote url maxRetry 0 maxRetry []).1
    as [page|v] eqn:Hloop.
  - destruct (negb (truthy page) || negb (truthy (trim page)));
      [right; left; reflexivity|].
    rewrite bind_value. cbn [mret Async_ret fst].
    destruct (getBrowseAnswer remote page _ maxRetry).1 as [out|] eqn:Hout;
      cbn [from_option]; [|right; left; reflexivity].
    unfold or_else. destruct (trim out) as [|c rest] eqn:Htrim; cbn [truthy];
      [right; left; reflexivity|].
    right; right.
    exists page, (or_else browseQuery (lit "Detailed summary of the page.")), out.
    rewrite Htrim. by split.
  - apply browse_loop_returns in Hloop as ->. left. reflexivity. }
split; [|exact Hforms].
destruct Hforms as [->|[->|(page & query & out & _ & -> & Hne)]];
  [discriminate|discriminate|done].
Qed.

(** X7: the answerer pipeline is given the first page that is not empty,
    with the question, or with ["Detailed summary of the page."] when the
    question is empty; its trimmed answer is returned, or the browse error
    message when there is none. *)
Theorem getBrowseResults_answers_first_page
    (this : SearchBrowseService.t) (remote : Remote)
    (url browseQuery text : jsstring) (maxRetry k : nat) :
  let read i := (readJina this remote url i).1 in
  let query := or_else browseQuery (lit "Detailed summary of the page.") in
  let answer := getBrowseAnswer remote text query maxRetry in
  let r := getBrowseResults this remote url browseQuery maxRetry in
  (k < maxRetry)%nat →
  (∀ i, (i < k)%nat → goesOn (read i)) →
  read k = Ok text →
  trim text ≠ [] →
  r.1 = or_else (from_option trim [] answer.1)
                (lit "Browse error. Please try again.")
  ∧ ∃ t, r.2 = t ++ answer.2
         ∧ readCalls t = replicate (S k) url
         ∧ forallb (λ e, negb (usesCompletion e)) t = true.
Proof.
intros read query answer r Hk Hgo Hpage Htrim.
assert (Htext : text ≠ []) by (by intros ->).
destruct (browse_loop_page this remote url maxRetry k text 0 maxRetry [] Hk)
  as (t & Hloop & Hreads & Hnone);
  [intros j Hj; apply Hgo; lia|exact Hpage|exact Htext|].
assert (Hpass : negb (truthy text) || negb (truthy (trim text)) = false).
{ destruct text; [done|]. by destruct (trim _). }
unfold r, getBrowseResults. rewrite Hloop.
unfold mbind, Async_bind. cbn [fst snd]. rewrite Hpass.
fold query. fold answer. cbn [mret Async_ret fst snd]. rewrite app_nil_r.
split; [reflexivity|]. by exists t.
Qed.

Lemma getBrowseResults_answers_first_page_witness :
  let answer :=
    getBrowseAnswer Sample.readable (lit "Rocq is a proof assistant.")
      (lit "Detailed summary of the page.") 3 in
  let r := getBrowseResults Sample.service Sample.readable Sample.page [] 3 in
  r.1 = or_else (from_option trim [] answer.1)
                (lit "Browse error. Please try again.")
  ∧ ∃ t, r.2 = t ++ answer.2
         ∧ readCalls t = replicate 2 Sample.page
         ∧ forallb (λ e, negb (usesCompletion e)) t = true.
Proof.
apply (getBrowseResults_answers_first_page Sample.service Sample.readable
         Sample.page [] (lit "Rocq is a proof assistant.") 3 1).
- lia.
- intros i Hi. replace i with 0%nat by lia. vm_compute. reflexivity.
- vm_compute. reflexivity.
- vm_compute. discriminate.
Defined.

(** X8: when no attempt delivers a page and none is refused as a client
    error, the browse error message is returned after [maxRetry] reads,
    without any completion call. *)
Theorem getBrowseResults_no_page
    (this : SearchBrowseService.t) (remote : Remote)
    (url browseQuery : jsstring) (maxRetry : nat) :
  let read i := (readJina this remote url i).1 in
  let r := getBrowseResults this remote url browseQuery maxRetry in
  (∀ i, (i < maxRetry)%nat → goesOn (read i)) →
  r.1 = lit "Browse error. Please try again."
  ∧ readCalls r.2 = replicate maxRetry url
  ∧ forallb (λ e, negb (usesCompletion e)) r.2 = true.
Proof.
intros read r Hgo.
destruct (browse_loop_none this remote url maxRetry maxRetry 0)
  as (t & Hloop & Hreads & Hnone); [intros j Hj; apply Hgo; lia|].
unfold r, getBrowseResults. rewrite Hloop.
unfold mbind, Async_bind. cbn [fst snd truthy negb orb mret Async_ret].
rewrite app_nil_r. split; [reflexivity|]. by split.
Qed.

Lemma getBrowseResults_no_page_witness :
  let r := getBrowseResults Sample.service Sample.silent Sample.page [] 3 in
  r.1 = lit "Browse error. Please try again."
  ∧ readCalls r.2 = replicate 3 Sample.page
  ∧ forallb (λ e, negb (usesCompletion e)) r.2 = true.
Proof.
apply (getBrowseResults_no_page Sample.service Sample.silent Sample.page [] 3).
intros i Hi. vm_compute. reflexivity.
Defined.

(** X9: a page of white space only is answered with the browse error
    message, without any completion call. *)
Theorem getBrowseResults_blank_page
    (this : SearchBrowseService.t) (remote : Remote)
    (url browseQuery text : jsstring) (maxRetry k : nat) :
  let read i := (readJina this remote url i).1 in
  let r := getBrowseResults this remote url browseQuery maxRetry in
  (k < maxRetry)%nat →
  (∀ i, (i < k)%nat → goesOn (read i)) →
  read k = Ok text →
  text ≠ [] →
  trim text = [] →
  r.1 = lit "Browse error. Please try again."
  ∧ readCalls r.2 = replicate (S k) url
  ∧ forallb (λ e, negb (usesCompletion e)) r.2 = true.
Proof.
intros read r Hk Hgo Hpage Htext Htrim.
destruct (browse_loop_page this remote url maxRetry k text 0 maxRetry [] Hk)
  as (t & Hloop & Hreads & Hnone);
  [intros j Hj; apply Hgo; lia|exact Hpage|exact Htext|].
unfold r, getBrowseResults. rewrite Hloop.
unfold mbind, Async_bind. cbn [fst snd]. rewrite Htrim.
destruct text as [|c text]; [done|].
cbn [truthy negb orb mret Async_ret fst snd].
rewrite app_nil_r. split; [reflexivity|]. by split.
Qed.

Lemma getBrowseResults_blank_page_witness :
  let r := getBrowseResults Sample.service Sample.blank Sample.page [] 3 in
  r.1 = lit "Browse error. Please try again."
  ∧ readCalls r.2 = replicate 1 Sample.page
  ∧ forallb (λ e, negb (usesCompletion e)) r.2 = true.
Proof.
apply (getBrowseResults_blank_page Sample.service Sample.blank Sample.page []
         (lit "  " ++ nl) 3 0).
- lia.
- intros i Hi. lia.
- vm_compute. reflexivity.
- vm_compute. discriminate.
- vm_compute. reflexivity.
Defined.

(** ** Searches: [getSearchResults] *)

Section Trim.

Implicit Types s : jsstring.

Lemma trimStart_elem s c :
  c ∈ s → isWhiteSpace c = false → c ∈ trimStart s.
Proof.
intros Hin Hc. induction s as [|d s IH]; [done|]. cbn [trimStart].
destruct (isWhiteSpace d) eqn:Hd; [|done].
apply elem_of_cons in Hin as [->|Hin]; [congruence|by apply IH].
Qed.

Lemma trim_elem s c : c ∈ s → isWhiteSpace c = false → c ∈ trim s.
Proof.
intros Hin Hc. unfold trim, trimEnd.
apply elem_of_reverse, trimStart_elem; [|done].
by apply elem_of_reverse, trimStart_elem.
Qed.

Lemma includes_char s c : includes s [c] = true → c ∈ s.
Proof.
unfold includes. intros [p Hp]%bool_decide_eq_true.
apply indexOf_Some in Hp as [Hocc _]. unfold occursAt in Hocc.
apply list_elem_of_lookup. exists p.
rewrite <- (Nat.add_0_r p), <- lookup_drop.
destruct (drop p s); [done|]. cbn in Hocc. by injection Hocc as ->.
Qed.

Lemma deleteAll_includes s c : includes (deleteAll c s) [c] = false.
Proof.
destruct (includes (deleteAll c s) [c]) eqn:E; [|done].
apply includes_char in E. unfold deleteAll in E.
by apply list_elem_of_filter in E as [? _].
Qed.

End Trim.

Section Search.

Variable this : SearchBrowseService.t.
Variable remote : Remote.
Variable query : jsstring.
Variable maxRetry : nat.

Let loop := getSearchResults_loop this remote query maxRetry.

(** One iteration of the retry loop. *)
Lemma search_loop_step i fuel sourceText :
  loop i (S fuel) sourceText
  = let request := (searchGoogle this remote query i).2 in
    match (searchGoogle this remote query i).1 with
    | Ok results =>
        if truthy (getBriefText results)
        then (getBriefText results, request)
        else ((loop (S i) fuel (getBriefText results)).1,
              request ++ (loop (S i) fuel (getBriefText results)).2)
    | Throw message =>
        ((loop (S i) fuel sourceText).1,
         request
         ++ [ConsoleError
               [lit "[ERROR]";
                lit "[SEARCH] Error (attempt " ++ numToString (Z.of_nat i + 1)
                ++ lit "): " ++ message]]
         ++ (if (i <? maxRetry - 1)%nat then [Sleep (backoff i)] else [])
         ++ (loop (S i) fuel sourceText).2)
    end.
Proof.
unfold loop. cbn [getSearchResults_loop]. cbv zeta.
unfold mbind at 1, Async_bind at 1.
destruct (searchGoogle this remote query i).1 as [results|message].
- destruct (truthy (getBriefText results)); [|reflexivity].
  cbn [mret Async_ret fst snd]. by rewrite app_nil_r.
- destruct (i <? maxRetry - 1)%nat; reflexivity.
Qed.

(** A request is sent only when the API key is set. *)
Lemma searchGoogle_calls i :
  ∃ a, (a ≤ 1)%nat
       ∧ searchCalls (searchGoogle this remote query i).2 = replicate a query.
Proof.
unfold searchGoogle. destruct (negb (truthy (serperApiKey this))).
- exists 0%nat. split; [lia|reflexivity].
- exists 1%nat. split; [lia|reflexivity].
Qed.


(** The loop sends at most one request per iteration, all for [query]. *)
Lemma search_loop_calls fuel : ∀ i sourceText,
  ∃ a, (a ≤ fuel)%nat
       ∧ searchCalls (loop i fuel sourceText).2 = replicate a query.
Proof.
induction fuel as [|fuel IH]; intros i sourceText;
  [exists 0%nat; split; [lia|reflexivity]|].
rewrite search_loop_step. cbv zeta.
destruct (searchGoogle_calls i) as (a & Ha & Hcalls).
destruct (searchGoogle this remote query i).1 as [results|message].
- destruct (truthy (getBriefText results)).
  + exists a. split; [lia|done].
  + destruct (IH (S i) (getBriefText results)) as (b & Hb & Hrest).
    exists (a + b)%nat. split; [lia|]. cbn [snd]. unfold searchCalls in *.
    by rewrite omap_app, Hcalls, Hrest, replicate_add.
- destruct (IH (S i) sourceText) as (b & Hb & Hrest).
  exists (a + b)%nat. split; [lia|]. cbn [snd]. unfold searchCalls in *.
  rewrite !omap_app, Hcalls, Hrest, replicate_add.
  destruct (i <? maxRetry - 1)%nat; reflexivity.
Qed.

(** On a query without quotes [getSearchResults] does not call itself. *)
Lemma getSearchResults_unquoted :
  includes query [quote] = false →
  getSearchResults this remote query maxRetry
  = primarySearch this remote query maxRetry.
Proof.
intros Hq. rewrite getSearchResults_equation_1. unfold primarySearch.
destruct (negb (truthy (trim query))); [done|].
unfold mbind, Async_bind.
destruct (getSearchResults_loop this remote query maxRetry 0 maxRetry [])
  as [sourceText t]. cbn [fst snd].
destruct (truthy sourceText); cbn [negb]; [done|].
destruct (decide (includes query [quote])) as [Hyes|Hno]; [|done].
by rewrite Hq in Hyes.
Qed.

End Search.







(** *** What a search returns and sends *)

Lemma trimStart_blank (s : jsstring) :
  Forall (λ c, isWhiteSpace c = true) s → trimStart s = [].
Proof.
induction 1 as [|c s Hc _ IH]; [done|]. cbn [trimStart]. by rewrite Hc.
Qed.

(** X10: a query made of white space only is answered with the generic
    message, without any request, log line or sleep. *)
Theorem getSearchResults_blank_query
    (this : SearchBrowseService.t) (remote : Remote) (query : jsstring)
    (maxRetry : nat) :
  Forall (λ c, isWhiteSpace c = true) query →
  getSearchResults this remote query maxRetry
  = (lit "Search result is empty. Please try again.", []).
Proof.
intros Hblank. rewrite getSearchResults_equation_1.
unfold trim. by rewrite (trimStart_blank query Hblank).
Qed.

Lemma getSearchResults_blank_query_witness :
  getSearchResults Sample.service Sample.literal [32%N; 9%N; 160%N] 3
  = (lit "Search result is empty. Please try again.", []).
Proof.
apply getSearchResults_blank_query. by repeat constructor.
Defined.

Lemma fallbackMessage_truthy query rest :
  truthy (fallbackMessage query ++ rest) = true.
Proof. reflexivity. Qed.

(** X11: [getSearchResults] never returns the empty string. *)
Theorem getSearchResults_never_empty
    (this : SearchBrowseService.t) (remote : Remote) (query : jsstring)
    (maxRetry : nat) :
  (getSearchResults this remote query maxRetry).1 ≠ [].
Proof.
assert (Htruthy : truthy (getSearchResults this remote query maxRetry).1 = true);
  [|by destruct (getSearchResults this remote query maxRetry).1].
rewrite getSearchResults_equation_1.
destruct (negb (truthy (trim query))); [reflexivity|].
rewrite bind_value.
destruct (truthy (getSearchResults_loop this remote query maxRetry 0 maxRetry []).1)
  eqn:Hloop; cbn [negb]; [exact Hloop|].
destruct (decide (includes query [quote])); [|reflexivity].
cbv zeta. rewrite bind_value. cbn [mret Async_ret fst].
destruct (truthy _ && negb _); [apply fallbackMessage_truthy|reflexivity].
Qed.

(** X12: whatever the services answer, [getSearchResults] sends at most
    [maxRetry] requests for the query and at most three for the query
    without its quotes, and no other request. *)
Theorem getSearchResults_request_bound
    (this : SearchBrowseService.t) (remote : Remote) (query : jsstring)
    (maxRetry : nat) :
  ∃ a b, (a ≤ maxRetry)%nat ∧ (b ≤ 3)%nat
    ∧ searchCalls (getSearchResults this remote query maxRetry).2
      = replicate a query ++ replicate b (deleteAll quote query).
Proof.
rewrite getSearchResults_equation_1.
destruct (negb (truthy (trim query)));
  [exists 0%nat, 0%nat; split; [lia|split; [lia|reflexivity]]|].
rewrite bind_trace.
destruct (search_loop_calls this remote query maxRetry maxRetry 0 [])
  as (a & Ha & Hcalls).
unfold searchCalls in *. rewrite omap_app, Hcalls.
destruct (negb (truthy _));
  [|exists a, 0%nat; split; [lia|split; [lia|reflexivity]]].
destruct (decide (includes query [quote]));
  [|exists a, 0%nat; split; [lia|split; [lia|reflexivity]]].
cbv zeta. rewrite bind_trace. cbn [mret Async_ret snd]. rewrite app_nil_r.
rewrite getSearchResults_unquoted by apply deleteAll_includes.
unfold primarySearch.
destruct (negb (truthy (trim (deleteAll quote query))));
  [exists a, 0%nat; split; [lia|split; [lia|reflexivity]]|].
rewrite bind_trace. cbn [mret Async_ret snd]. rewrite app_nil_r.
destruct (search_loop_calls this remote (deleteAll quote query) 3 3 0 [])
  as (b & Hb & Hcalls').
exists a, b. split; [lia|]. split; [lia|].
unfold searchCalls in Hcalls'. by rewrite Hcalls'.
Qed.

(** The loop returns the first text that an attempt yields. *)
Lemma search_loop_first this remote query maxRetry k : ∀ i fuel,
  (k < fuel)%nat →
  (∀ j, (i ≤ j < i + k)%nat → yields this remote query j = []) →
  yields this remote query (i + k) ≠ [] →
  (getSearchResults_loop this remote query maxRetry i fuel []).1
  = yields this remote query (i + k).
Proof.
induction k as [|k IH]; intros i fuel Hk Hnone Hsome;
  (destruct fuel as [|fuel]; [lia|]); rewrite search_loop_step; cbv zeta.
- rewrite Nat.add_0_r in *. unfold yields in *.
  destruct (searchGoogle this remote query i).1 as [results|message]; [|done].
  by destruct (getBriefText results).
- assert (Hi : yields this remote query i = []) by (apply Hnone; lia).
  replace (i + S k)%nat with (S i + k)%nat in * by lia.
  unfold yields in Hi.
  destruct (searchGoogle this remote query i).1 as [results|message].
  + rewrite Hi. cbn [truthy fst]. apply IH; [lia| |done].
    intros j Hj. apply Hnone. lia.
  + cbn [fst]. apply IH; [lia| |done]. intros j Hj. apply Hnone. lia.
Qed.

(** X13: the text of the first attempt that yields one is returned as it is,
    without the fallback, after at most one request per attempt made. *)
Theorem getSearchResults_first_text
    (this : SearchBrowseService.t) (remote : Remote) (query : jsstring)
    (maxRetry k : nat) :
  trim query ≠ [] →
  (k < maxRetry)%nat →
  (∀ i, (i < k)%nat → yields this remote query i = []) →
  yields this remote query k ≠ [] →
  (getSearchResults this remote query maxRetry).1 = yields this remote query k
  ∧ ∃ a, (a ≤ maxRetry)%nat
         ∧ searchCalls (getSearchResults this remote query maxRetry).2
           = replicate a query.
Proof.
intros Htrim Hk Hnone Hsome.
pose proof (search_loop_first this remote query maxRetry k 0 maxRetry Hk) as Hloop.
cbn [Nat.add] in Hloop.
specialize (Hloop ltac:(intros j Hj; apply Hnone; lia) Hsome).
destruct (search_loop_calls this remote query maxRetry maxRetry 0 [])
  as (a & Ha & Hcalls).
rewrite getSearchResults_equation_1.
destruct (trim query) as [|c t] eqn:Ht; [done|]. cbn [truthy negb].
rewrite bind_value, bind_trace, Hloop.
destruct (yields this remote query k) as [|d text]; [done|].
cbn [truthy negb mret Async_ret fst snd]. split; [reflexivity|].
exists a. split; [done|]. by rewrite app_nil_r.
Qed.

Lemma getSearchResults_first_text_witness :
  (getSearchResults Sample.service Sample.literal (lit "rocq") 3).1
  = yields Sample.service Sample.literal (lit "rocq") 0
  ∧ ∃ a, (a ≤ 3)%nat
         ∧ searchCalls (getSearchResults Sample.service Sample.literal (lit "rocq") 3).2
           = replicate a (lit "rocq").
Proof.
apply (getSearchResults_first_text Sample.service Sample.literal (lit "rocq") 3 0).
- intros H. vm_compute in H. discriminate.
- lia.
- intros i Hi. lia.
- intros H. vm_compute in H. discriminate.
Defined.

Section MissingKey.

Variable this : SearchBrowseService.t.
Variable remote : Remote.
Hypothesis Hkey : serperApiKey this = [].

Lemma searchGoogle_missing_key query i :
  searchGoogle this remote query i
  = (Throw (lit "SERPER_API_KEY is missing"), []).
Proof. unfold searchGoogle. by rewrite Hkey. Qed.

Lemma search_loop_missing_key query maxRetry fuel : ∀ i sourceText,
  (getSearchResults_loop this remote query maxRetry i fuel sourceText).1
  = sourceText
  ∧ searchCalls
      (getSearchResults_loop this remote query maxRetry i fuel sourceText).2
    = [].
Proof.
induction fuel as [|fuel IH]; intros i sourceText; [done|].
rewrite search_loop_step, searchGoogle_missing_key. cbv zeta. cbn [fst snd].
destruct (IH (S i) sourceText) as [Hvalue Hcalls].
split; [done|]. unfold searchCalls in *.
rewrite !omap_app, Hcalls. by destruct (i <? maxRetry - 1)%nat.
Qed.

Lemma primarySearch_missing_key query maxRetry :
  (primarySearch this remote query maxRetry).1 = emptyResult
  ∧ searchCalls (primarySearch this remote query maxRetry).2 = [].
Proof.
unfold primarySearch. destruct (negb (truthy (trim query))); [done|].
destruct (search_loop_missing_key query maxRetry maxRetry 0 [])
  as [Hvalue Hcalls].
rewrite bind_value, bind_trace, Hvalue. cbn [truthy mret Async_ret fst snd].
by rewrite app_nil_r.
Qed.

End MissingKey.

(** X14: without a Serper API key no search request is ever sent, and every
    query is answered with the generic message. *)
Theorem getSearchResults_missing_key
    (this : SearchBrowseService.t) (remote : Remote) (query : jsstring)
    (maxRetry : nat) :
  serperApiKey this = [] →
  (getSearchResults this remote query maxRetry).1
  = lit "Search result is empty. Please try again."
  ∧ searchCalls (getSearchResults this remote query maxRetry).2 = [].
Proof.
intros Hkey. rewrite getSearchResults_equation_1.
destruct (negb (truthy (trim query))); [done|].
destruct (search_loop_missing_key this remote Hkey query maxRetry maxRetry 0 [])
  as [Hvalue Hcalls].
rewrite bind_value, bind_trace, Hvalue. cbn [truthy negb].
destruct (decide (includes query [quote]));
  [|cbn [mret Async_ret fst snd]; by rewrite app_nil_r].
cbv zeta. rewrite bind_value, bind_trace.
rewrite getSearchResults_unquoted by apply deleteAll_includes.
destruct (primarySearch_missing_key this remote Hkey (deleteAll quote query) 3)
  as [-> Hretry].
cbn [mret Async_ret fst snd]. split; [reflexivity|].
unfold searchCalls in *. by rewrite !omap_app, Hcalls, Hretry.
Qed.

Lemma getSearchResults_missing_key_witness :
  (getSearchResults Sample.keyless Sample.literal Sample.quoted 3).1
  = lit "Search result is empty. Please try again."
  ∧ searchCalls (getSearchResults Sample.keyless Sample.literal Sample.quoted 3).2 = [].
Proof. by apply getSearchResults_missing_key. Defined.

(** *** The brief text *)

Lemma foldl_briefEntry contents : ∀ sourceText,
  foldl (λ sourceText content, sourceText ++ briefEntry content)
        sourceText contents
  = sourceText ++ concat (briefEntry <$> contents).
Proof.
induction contents as [|c contents IH]; intros sourceText; cbn.
- by rewrite app_nil_r.
- by rewrite IH, app_assoc.
Qed.

Lemma briefEntry_tag content : 60%N ∈ briefEntry content.
Proof. unfold briefEntry. apply elem_of_app. left. by left. Qed.

(** X15: the brief text is empty exactly when there is no result. *)
Theorem getBriefText_empty_iff (contents : list SearchResult) :
  getBriefText contents = [] ↔ contents = [].
Proof.
split; [|by intros ->].
destruct contents as [|c contents]; [done|]. intros Hempty. exfalso.
assert (Hin : 60%N ∈ getBriefText (c :: contents)).
{ unfold getBriefText. apply trim_elem; [|done].
  rewrite foldl_briefEntry. cbn [fmap list_fmap concat app].
  apply elem_of_app. left. apply briefEntry_tag. }
rewrite Hempty in Hin. by apply elem_of_nil in Hin.
Qed.

(** ** The batch tools: [multi_search] and [multi_browse] *)

Section Join.

Variable sep : jsstring.

Lemma join_cons b blocks :
  blocks ≠ [] → join sep (b :: blocks) = b ++ sep ++ join sep blocks.
Proof. by destruct blocks. Qed.

(** Every block stands in the joined text at its offset. *)
Lemma join_block blocks : ∀ k b,
  blocks !! k = Some b →
  occursAt (join sep blocks) b (blockOffset sep blocks k).
Proof.
induction blocks as [|b0 blocks IH]; intros k b Hk; [done|].
unfold occursAt, blockOffset in *. destruct k as [|k].
- injection Hk as ->.
  cbn [take fmap list_fmap sum_list sum_list_with Nat.add Nat.mul drop].
  destruct blocks; cbn [join]; [by apply take_ge|apply take_app_length].
- cbn [lookup list_lookup] in Hk. rewrite join_cons by by destruct blocks.
  cbn [take fmap list_fmap sum_list sum_list_with]. unfold id.
  specialize (IH k b Hk).
  set (o := (sum_list (length <$> take k blocks) + k * length sep)%nat) in *.
  replace (length b0 + sum_list (length <$> take k blocks) + S k * length sep)%nat
    with (length b0 + (length sep + o))%nat by lia.
  rewrite <- (drop_drop _ (length sep + o) (length b0)), drop_app_length.
  by rewrite <- (drop_drop _ o (length sep)), drop_app_length.
Qed.

(** Blocks stand in the order of their indices, without overlap. *)
Lemma join_block_order blocks k k' b :
  blocks !! k = Some b →
  (k < k')%nat →
  (blockOffset sep blocks k + length b + length sep
   ≤ blockOffset sep blocks k')%nat.
Proof.
intros Hk Hlt. unfold blockOffset.
assert (sum_list (length <$> take k blocks) + length b
        ≤ sum_list (length <$> take k' blocks))%nat; [|nia].
replace k' with (S k + (k' - S k))%nat by lia.
rewrite <- take_take_drop, fmap_app, sum_list_with_app, (take_S_r _ _ _ Hk).
rewrite fmap_app, sum_list_with_app. cbn. lia.
Qed.

End Join.

(** C5: the text delivered by [multi_search] is the sequence of the
    per-query blocks in the order of the queries, whatever the times at
    which the searches settle; the same holds for [multi_browse] and its
    urls.  In the joined text the block of an earlier item ends before the
    block of a later one starts. *)
Theorem multi_tools_keep_input_order
    (service : SearchBrowseService.t) (remotes : nat → Remote)
    (finish : nat → nat) (queries urls : list jsstring)
    (query : option jsstring) :
  let blocks :=
    imap (λ i q,
            MyMCP.searchBlock q (getSearchResults service (remotes i) q 3).1)
         queries in
  let answers :=
    imap (λ i url,
            MyMCP.browseBlock url
              (getBrowseResults service (remotes i) url (opt_or query []) 3).1)
         urls in
  (MyMCP.multi_search service remotes finish queries).1
  = MyMCP.textContent (join (nl ++ nl) blocks)
  ∧ (MyMCP.multi_browse service remotes finish urls query).1
    = MyMCP.textContent (join (nl ++ nl) answers)
  ∧ (∀ k k' b,
       blocks !! k = Some b → (k < k')%nat →
       occursAt (join (nl ++ nl) blocks) b (blockOffset (nl ++ nl) blocks k)
       ∧ (blockOffset (nl ++ nl) blocks k + length b + 2
          ≤ blockOffset (nl ++ nl) blocks k')%nat)
  ∧ (∀ k k' b,
       answers !! k = Some b → (k < k')%nat →
       occursAt (join (nl ++ nl) answers) b (blockOffset (nl ++ nl) answers k)
       ∧ (blockOffset (nl ++ nl) answers k + length b + 2
          ≤ blockOffset (nl ++ nl) answers k')%nat).
Proof.
intros blocks answers. split; [|split; [|split]].
- unfold MyMCP.multi_search. rewrite bind_value. cbn [mret Async_ret fst].
  by rewrite promiseAll_value, fmap_imap.
- unfold MyMCP.multi_browse. rewrite bind_value. cbn [mret Async_ret fst].
  by rewrite promiseAll_value, fmap_imap.
- intros k k' b Hk Hlt. split; [by apply join_block|].
  by apply (join_block_order (nl ++ nl) blocks k k' b).
- intros k k' b Hk Hlt. split; [by apply join_block|].
  by apply (join_block_order (nl ++ nl) answers k k' b).
Qed.

(** A run of [multi_search] in which the second search settles first. *)
Example multi_search_second_settles_first :
  (MyMCP.multi_search Sample.service (λ _, Sample.literal) (λ i, (1 - i)%nat)
     [lit "rocq"; lit "prover"]).1
  = MyMCP.textContent
      (MyMCP.searchBlock (lit "rocq")
         (getSearchResults Sample.service Sample.literal (lit "rocq") 3).1
       ++ nl ++ nl
       ++ MyMCP.searchBlock (lit "prover")
            (getSearchResults Sample.service Sample.literal (lit "prover") 3).1).
Proof. vm_compute. reflexivity. Qed.

(** ** Tool registration: [init] *)

(** Decides an equation between two literals of the source. *)
Ltac literal_ne := intros ?H; vm_compute in H; discriminate.

Lemma registry_get_set registry name entry n :
  MyMCP.registry_get (MyMCP.registry_set registry name entry) n
  = if decide (name = n) then Some entry else MyMCP.registry_get registry n.
Proof.
unfold MyMCP.registry_get.
induction registry as [|[k v] registry IH]; cbn [MyMCP.registry_set assoc].
- by destruct (decide (name = n)).
- destruct (decide (k = name)) as [->|Hk]; cbn [assoc].
  + by destruct (decide (name = n)).
  + destruct (decide (k = n)) as [->|Hn]; [by rewrite decide_False|done].
Qed.

(** A registration either throws and changes nothing, or adds the name to
    the server and the entry to the registry. *)
Lemma registerTool_cases name description h this :
  ((lit name ∈ MyMCP.server this)
   ∧ MyMCP.registerTool name description h this
     = (Throw (lit "Tool " ++ lit name ++ lit " is already registered"), this))
  ∨ ((lit name ∉ MyMCP.server this)
     ∧ MyMCP.registerTool name description h this
       = (Ok (),
          {| MyMCP.sessions := MyMCP.sessions this;
             MyMCP.server := MyMCP.server this ++ [lit name];
             MyMCP.toolsRegistry :=
               MyMCP.registry_set (MyMCP.toolsRegistry this) (lit name)
                 {| MyMCP.tool_handler := h;
                    MyMCP.tool_description := lit description |};
             MyMCP.started := MyMCP.started this |})).
Proof.
unfold MyMCP.registerTool, MyMCP.andThen, MyMCP.serverTool.
destruct (decide (lit name ∈ MyMCP.server this)); [by left|by right].
Qed.

(** [init] writes neither to a stream nor to the started calls. *)
Lemma init_state this :
  MyMCP.sessions (MyMCP.init this).2 = MyMCP.sessions this
  ∧ MyMCP.started (MyMCP.init this).2 = MyMCP.started this.
Proof.
unfold MyMCP.init, MyMCP.andThen.
repeat match goal with
| |- context [MyMCP.registerTool ?n ?d ?h ?t] =>
    destruct (registerTool_cases n d h t) as [[_ ->]|[_ ->]]; cbn [fst snd]
end; by split.
Qed.

(** On a server that holds the first tool already, [init] throws at once. *)
Lemma init_registered this :
  lit "search" ∈ MyMCP.server this →
  MyMCP.init this = (Throw (lit "Tool search is already registered"), this).
Proof.
intros Hin. unfold MyMCP.init, MyMCP.andThen.
destruct (registerTool_cases "search"
            "Search Google for a query and return brief snippets."
            MyMCP.SearchHandler this) as [[_ ->]|[Hout _]]; [reflexivity|done].
Qed.

(** On a server without tools, [init] succeeds. *)
Lemma init_first this :
  MyMCP.server this = [] →
  (MyMCP.init this).1 = Ok ()
  ∧ MyMCP.server (MyMCP.init this).2
    = [lit "search"; lit "browse"; lit "multi_search"; lit "multi_browse"].
Proof.
destruct this as [sessions server registry started]. cbn [MyMCP.server].
intros ->. split; reflexivity.
Qed.

(** X16: on an instance whose server holds no tool yet, [init] succeeds:
    it registers the four tools on the server, in the order search, browse,
    multi_search, multi_browse, and in the registry with their handlers,
    whatever the registry held before, and touches neither the sessions nor
    the started calls.  It succeeds once: on the instance it leaves, [init]
    throws [Tool search is already registered] and changes nothing. *)
Theorem init_registers_four_tools (this : MyMCP.t) :
  let after := (MyMCP.init this).2 in
  let registered name :=
    MyMCP.tool_handler
      <$> MyMCP.registry_get (MyMCP.toolsRegistry after) (lit name) in
  MyMCP.server this = [] →
  (MyMCP.init this).1 = Ok ()
  ∧ MyMCP.server after
    = [lit "search"; lit "browse"; lit "multi_search"; lit "multi_browse"]
  ∧ registered "search" = Some MyMCP.SearchHandler
  ∧ registered "browse" = Some MyMCP.BrowseHandler
  ∧ registered "multi_search" = Some MyMCP.MultiSearchHandler
  ∧ registered "multi_browse" = Some MyMCP.MultiBrowseHandler
  ∧ MyMCP.sessions after = MyMCP.sessions this
  ∧ MyMCP.started after = MyMCP.started this
  ∧ MyMCP.init after
    = (Throw (lit "Tool search is already registered"), after).
Proof.
intros after registered Hserver.
destruct this as [sessions server registry started].
cbn [MyMCP.server] in Hserver. subst server.
assert (Hafter :
  MyMCP.server after
  = [lit "search"; lit "browse"; lit "multi_search"; lit "multi_browse"])
  by reflexivity.
split; [reflexivity|]. split; [exact Hafter|].
assert (Hregistry :
  MyMCP.toolsRegistry after
  = MyMCP.registry_set
      (MyMCP.registry_set
         (MyMCP.registry_set
            (MyMCP.registry_set registry (lit "search")
               {| MyMCP.tool_handler := MyMCP.SearchHandler;
                  MyMCP.tool_description :=
                    lit "Search Google for a query and return brief snippets." |})
            (lit "browse")
            {| MyMCP.tool_handler := MyMCP.BrowseHandler;
               MyMCP.tool_description :=
                 lit "Browse a webpage and answer a specific query based on its content." |})
         (lit "multi_search")
         {| MyMCP.tool_handler := MyMCP.MultiSearchHandler;
            MyMCP.tool_description :=
              lit "Perform multiple searches in parallel." |})
      (lit "multi_browse")
      {| MyMCP.tool_handler := MyMCP.MultiBrowseHandler;
         MyMCP.tool_description :=
           lit "Browse multiple webpages in parallel and answer a query." |})
  by reflexivity.
unfold registered. rewrite Hregistry, !registry_get_set.
rewrite !(decide_False (P := lit "multi_browse" = lit "search")) by literal_ne.
rewrite !(decide_False (P := lit "multi_search" = lit "search")) by literal_ne.
rewrite !(decide_False (P := lit "browse" = lit "search")) by literal_ne.
rewrite !(decide_False (P := lit "multi_browse" = lit "browse")) by literal_ne.
rewrite !(decide_False (P := lit "multi_search" = lit "browse")) by literal_ne.
rewrite !(decide_False (P := lit "multi_browse" = lit "multi_search"))
  by literal_ne.
rewrite !decide_True by reflexivity.
do 6 (split; [reflexivity|]).
apply init_registered. rewrite Hafter. by left.
Qed.

Lemma init_registers_four_tools_witness :
  let after := (MyMCP.init Sample.fresh).2 in
  let registered name :=
    MyMCP.tool_handler
      <$> MyMCP.registry_get (MyMCP.toolsRegistry after) (lit name) in
  (MyMCP.init Sample.fresh).1 = Ok ()
  ∧ MyMCP.server after
    = [lit "search"; lit "browse"; lit "multi_search"; lit "multi_browse"]
  ∧ registered "search" = Some MyMCP.SearchHandler
  ∧ registered "browse" = Some MyMCP.BrowseHandler
  ∧ registered "multi_search" = Some MyMCP.MultiSearchHandler
  ∧ registered "multi_browse" = Some MyMCP.MultiBrowseHandler
  ∧ MyMCP.sessions after = MyMCP.sessions Sample.fresh
  ∧ MyMCP.started after = MyMCP.started Sample.fresh
  ∧ MyMCP.init after
    = (Throw (lit "Tool search is already registered"), after).
Proof. apply (init_registers_four_tools Sample.fresh). reflexivity. Defined.

(** ** The submission endpoint: [fetch] on [/mcp/messages] *)

Section Submission.

Import MyMCP.

Variable uuid : jsstring.
Variable request : Request.
Variable this : MyMCP.t.

Hypothesis Hpath : pathname request = lit "/mcp/messages".
Hypothesis Hmethod : method request = lit "POST".

(** The branch of [fetch] that serves the submission. *)
Lemma fetch_submission :
  fetch uuid request this
  = match sessionId request with
    | None | Some [] => (Ok (TextResponse (lit "Missing sessionId") 400), this)
    | Some sessionId =>
        match sessions this !! sessionId with
        | None =>
            (Ok (TextResponse (lit "Session not found or expired") 404), this)
        | Some controller =>
            match init this with
            | (Throw message, this) => (Throw message, this)
            | (Ok _, this) =>
                match json request with
                | Throw message => (Throw message, this)
                | Ok body =>
                    match dispatch sessionId body this with
                    | Ok (response, this') => (Ok response, this')
                    | Throw message => (Throw message, this)
                    end
                end
            end
        end
    end.
Proof.
unfold fetch. rewrite Hpath, Hmethod.
rewrite decide_False by (intros H; vm_compute in H; discriminate).
by rewrite decide_True.
Qed.

(** A submission to an open session of an instance on which [init] has run
    before: [init] runs again and throws, before the body is read. *)
Lemma open_session_throws session queue :
  lit "search" ∈ server this →
  sessionId request = Some session →
  session ≠ [] →
  sessions this !! session = Some queue →
  fetch uuid request this
  = (Throw (lit "Tool search is already registered"), this).
Proof.
intros Hserver Hsession Hne Hqueue. rewrite fetch_submission, Hsession.
destruct session as [|c session]; [done|].
by rewrite Hqueue, (init_registered this Hserver).
Qed.

End Submission.

(** The [tools/call] branch of the dispatcher, for a name that is not in
    the registry. *)
Lemma dispatch_unknown_tool session (body params name id : value) this :
  MyMCP.getProp body "method" = Ok (MyMCP.str "tools/call") →
  MyMCP.getProp body "id" = Ok id →
  MyMCP.getProp body "params" = Ok params →
  MyMCP.getProp params "name" = Ok name →
  (∀ n, name = Str n →
        MyMCP.registry_get (MyMCP.toolsRegistry this) n = None) →
  MyMCP.dispatch session body this
  = Ok (MyMCP.accepted,
        MyMCP.enqueue session
          (MyMCP.Message
             (MyMCP.obj [("jsonrpc", MyMCP.str "2.0"); ("id", id);
                         ("error",
                          MyMCP.obj [("code", Num (-32601));
                                     ("message", MyMCP.str "Tool not found")])]))
          this).
Proof.
intros Hm Hid Hparams Hname Hunknown. unfold MyMCP.dispatch.
rewrite Hm. cbn [mbind result_bind].
replace (MyMCP.strictEq (MyMCP.str "tools/call") "tools/list") with false
  by (vm_compute; reflexivity).
replace (MyMCP.strictEq (MyMCP.str "tools/call") "tools/call") with true
  by (vm_compute; reflexivity).
rewrite Hparams. cbn [mbind result_bind]. rewrite Hname.
cbn [mbind result_bind].
assert (Htool :
  match name with
  | Str n => MyMCP.registry_get (MyMCP.toolsRegistry this) n
  | _ => None
  end = None) by (destruct name; try done; by apply Hunknown).
by rewrite Htool, Hid.
Qed.

(** The [tools/call] branch reads [body.params.name] without a guard: for a
    body without [params] the dispatcher throws. *)
Example dispatch_without_params_throws :
  MyMCP.dispatch Sample.sessionId Sample.callWithoutParams Sample.opened
  = Throw (lit "Cannot read properties of undefined (reading 'name')").
Proof. vm_compute. reflexivity. Qed.

(** The instance that has opened a stream holds the four tools on its
    server. *)
Lemma opened_server : lit "search" ∈ MyMCP.server Sample.opened.
Proof. vm_compute. by left. Qed.

(** C6 fails on the only kind of state in which a session is open.  The
    [tools/call] branch of the dispatcher does write the JSON-RPC error
    with code -32601 and message ["Tool not found"] under the id of the
    request for a name that is not registered, but [fetch] does not reach
    it: the session was opened by a request that ran [init], [fetch] runs
    [init] again before it reads the body, and the second registration of
    the first tool throws.  Nothing is written to the stream. *)
Theorem tools_call_unknown_tool_is_not_answered :
  let request := Sample.post Sample.callTranslate in
  let error :=
    MyMCP.obj [("jsonrpc", MyMCP.str "2.0"); ("id", Num 7);
               ("error", MyMCP.obj [("code", Num (-32601));
                                    ("message", MyMCP.str "Tool not found")])] in
  MyMCP.sessions Sample.opened !! Sample.sessionId = Some Sample.endpointFrames
  ∧ MyMCP.registry_get (MyMCP.toolsRegistry Sample.opened) (lit "translate")
    = None
  ∧ MyMCP.dispatch Sample.sessionId Sample.callTranslate Sample.opened
    = Ok (MyMCP.accepted,
          MyMCP.enqueue Sample.sessionId (MyMCP.Message error) Sample.opened)
  ∧ MyMCP.fetch [] request Sample.opened
    = (Throw (lit "Tool search is already registered"), Sample.opened).
Proof.
intros request error.
assert (Hqueue :
  MyMCP.sessions Sample.opened !! Sample.sessionId
  = Some Sample.endpointFrames) by (vm_compute; reflexivity).
split; [exact Hqueue|]. split; [vm_compute; reflexivity|]. split.
- apply (dispatch_unknown_tool Sample.sessionId Sample.callTranslate
           (MyMCP.obj [("name", MyMCP.str "translate");
                       ("arguments", MyMCP.obj [])])
           (MyMCP.str "translate") (Num 7));
    try (vm_compute; reflexivity).
  intros n [= <-]. vm_compute. reflexivity.
- apply (open_session_throws [] request Sample.opened)
    with (session := Sample.sessionId) (queue := Sample.endpointFrames);
    [reflexivity|reflexivity|exact opened_server|reflexivity|discriminate
    |exact Hqueue].
Qed.

(** C7 fails for every submission to an open session: whatever the body
    is, a recognised method or another one, [fetch] answers neither 202 nor
    501.  It runs [init] again, the registration of the first tool throws,
    and the request fails with that exception; the state of the Durable
    Object is as before. *)
Theorem submission_to_open_session_is_not_accepted :
  MyMCP.sessions Sample.opened !! Sample.sessionId = Some Sample.endpointFrames
  ∧ MyMCP.getProp Sample.listTools "method" = Ok (MyMCP.str "tools/list")
  ∧ ∀ body : value,
      MyMCP.fetch [] (Sample.post body) Sample.opened
      = (Throw (lit "Tool search is already registered"), Sample.opened).
Proof.
assert (Hqueue :
  MyMCP.sessions Sample.opened !! Sample.sessionId
  = Some Sample.endpointFrames) by (vm_compute; reflexivity).
split; [exact Hqueue|]. split; [vm_compute; reflexivity|]. intros body.
apply (open_session_throws [] (Sample.post body) Sample.opened)
  with (session := Sample.sessionId) (queue := Sample.endpointFrames);
  [reflexivity|reflexivity|exact opened_server|reflexivity|discriminate
  |exact Hqueue].
Qed.

(** The status codes of the submission endpoint.  The codes 400 and 404 are
    answered before [init] runs; behind it, the request fails with the
    exception of [init], or the dispatcher answers 202 and 501. *)
Lemma submission_status_codes
    (uuid : jsstring) (request : MyMCP.Request) (this : MyMCP.t) :
  MyMCP.pathname request = lit "/mcp/messages" →
  MyMCP.method request = lit "POST" →
  let response := (MyMCP.fetch uuid request this).1 in
  match MyMCP.sessionId request with
  | None | Some [] =>
      response = Ok (MyMCP.TextResponse (lit "Missing sessionId") 400)
  | Some session =>
      match MyMCP.sessions this !! session with
      | None =>
          response
          = Ok (MyMCP.TextResponse (lit "Session not found or expired") 404)
      | Some _ =>
          match (MyMCP.init this).1 with
          | Throw message => response = Throw message
          | Ok _ =>
              ∀ body m,
                MyMCP.json request = Ok body →
                MyMCP.getProp body "method" = Ok m →
                if MyMCP.strictEq m "tools/list"
                   || MyMCP.strictEq m "notifications/initialized"
                   || MyMCP.strictEq m "initialize"
                then response = Ok (MyMCP.TextResponse (lit "Accepted") 202)
                else if MyMCP.strictEq m "tools/call"
                then ∀ params name,
                       MyMCP.getProp body "params" = Ok params →
                       MyMCP.getProp params "name" = Ok name →
                       response = Ok (MyMCP.TextResponse (lit "Accepted") 202)
                else response
                     = Ok (MyMCP.TextResponse
                             (lit "Method not supported in bridge mode") 501)
          end
      end
  end.
Proof.
intros Hpath Hmethod response. unfold response.
rewrite (fetch_submission uuid request this Hpath Hmethod).
destruct (MyMCP.sessionId request) as [[|c session]|]; [done| |done].
destruct (MyMCP.sessions this !! (c :: session)) as [queue|]; [|done].
destruct (MyMCP.init this) as [[[]|message] after]; [|done].
cbn [fst]. intros body m -> Hm.
assert (Hid : ∃ id, MyMCP.getProp body "id" = Ok id).
{ destruct body; try discriminate; by eexists. }
destruct Hid as [id Hid].
unfold MyMCP.dispatch. rewrite Hm. cbn [mbind result_bind]. rewrite Hid.
destruct m as [| | | |s| |]; cbn [MyMCP.strictEq orb mbind result_bind];
  try reflexivity.
destruct (bool_decide (s = lit "tools/list")); [reflexivity|].
cbn [orb].
destruct (bool_decide (s = lit "tools/call")) eqn:Hcall.
- apply bool_decide_eq_true in Hcall as ->.
  replace (bool_decide (lit "tools/call" = lit "notifications/initialized"))
    with false by (vm_compute; reflexivity).
  replace (bool_decide (lit "tools/call" = lit "initialize"))
    with false by (vm_compute; reflexivity).
  cbn [orb]. intros params name -> . cbn [mbind result_bind]. intros ->.
  cbn [mbind result_bind].
  by destruct (match name with Str _ => _ | _ => _ end).
- destruct (bool_decide (s = lit "notifications/initialized"));
    destruct (bool_decide (s = lit "initialize")); reflexivity.
Qed.

(** ** The Durable Object: [fetch] and the streams *)

(** X17: a request to [/mcp/sse] on an instance whose server holds no tool
    yet answers with the stream of a new session, which is registered under
    the fresh id with the two frames of the endpoint event, and leaves the
    other sessions and the started calls as they are.  On an instance on
    which [init] has registered its first tool before, the request fails
    with [Tool search is already registered] and changes nothing: no
    further stream is opened. *)
Theorem fetch_opens_session
    (uuid : jsstring) (request : MyMCP.Request) (this : MyMCP.t) :
  MyMCP.pathname request = lit "/mcp/sse" →
  let after := (MyMCP.fetch uuid request this).2 in
  (MyMCP.server this = [] →
   (MyMCP.fetch uuid request this).1 = Ok (MyMCP.EventStream uuid)
   ∧ MyMCP.sessions after !! uuid
     = Some [MyMCP.Text (lit "event: endpoint" ++ nl);
             MyMCP.Text (lit "data: " ++ MyMCP.origin request
                         ++ lit "/mcp/messages?sessionId=" ++ uuid ++ nl ++ nl)]
   ∧ (∀ other, other ≠ uuid →
        MyMCP.sessions after !! other = MyMCP.sessions this !! other)
   ∧ MyMCP.server after = MyMCP.server (MyMCP.init this).2
   ∧ MyMCP.toolsRegistry after = MyMCP.toolsRegistry (MyMCP.init this).2
   ∧ MyMCP.started after = MyMCP.started this)
  ∧ (lit "search" ∈ MyMCP.server this →
     MyMCP.fetch uuid request this
     = (Throw (lit "Tool search is already registered"), this)).
Proof.
intros Hpath after. unfold after, MyMCP.fetch. rewrite Hpath.
rewrite decide_True by reflexivity. split.
- intros Hserver.
  destruct (init_first this Hserver) as [Hok _].
  destruct (init_state this) as [Hsessions Hstarted].
  destruct (MyMCP.init this) as [[[]|message] this']; [|discriminate].
  cbn [fst snd MyMCP.sessions MyMCP.started MyMCP.toolsRegistry MyMCP.server]
    in *.
  split; [reflexivity|]. split; [by rewrite lookup_insert_eq|].
  split; [|by repeat split].
  intros other Hother. by rewrite lookup_insert_ne, Hsessions.
- intros Hserver. by rewrite (init_registered this Hserver).
Qed.

Lemma fetch_opens_session_witness :
  let request :=
    {| MyMCP.pathname := lit "/mcp/sse";
       MyMCP.origin := lit "https://mcp.example.com";
       MyMCP.method := lit "GET";
       MyMCP.sessionId := None;
       MyMCP.json := Throw (lit "Unexpected end of JSON input") |} in
  let after := (MyMCP.fetch Sample.sessionId request Sample.fresh).2 in
  (MyMCP.fetch Sample.sessionId request Sample.fresh).1
  = Ok (MyMCP.EventStream Sample.sessionId)
  ∧ MyMCP.sessions after !! Sample.sessionId
    = Some [MyMCP.Text (lit "event: endpoint" ++ nl);
            MyMCP.Text (lit "data: " ++ lit "https://mcp.example.com"
                        ++ lit "/mcp/messages?sessionId=" ++ Sample.sessionId
                        ++ nl ++ nl)]
  ∧ (∀ other, other ≠ Sample.sessionId →
       MyMCP.sessions after !! other = MyMCP.sessions Sample.fresh !! other)
  ∧ MyMCP.server after = MyMCP.server (MyMCP.init Sample.fresh).2
  ∧ MyMCP.toolsRegistry after
    = MyMCP.toolsRegistry (MyMCP.init Sample.fresh).2
  ∧ MyMCP.started after = MyMCP.started Sample.fresh.
Proof.
apply (fetch_opens_session Sample.sessionId
         {| MyMCP.pathname := lit "/mcp/sse";
            MyMCP.origin := lit "https://mcp.example.com";
            MyMCP.method := lit "GET";
            MyMCP.sessionId := None;
            MyMCP.json := Throw (lit "Unexpected end of JSON input") |}
         Sample.fresh); reflexivity.
Defined.

(** What a dispatched submission does to the state: nothing, one message
    on the stream of the session, or one call started for a registered
    tool. *)
Lemma dispatch_effect sessionId body this response this' :
  MyMCP.dispatch sessionId body this = Ok (response, this') →
  this' = this
  ∨ (∃ payload,
       this' = MyMCP.enqueue sessionId (MyMCP.Message payload) this)
  ∨ (∃ params name tool,
       MyMCP.getProp body "params" = Ok params
       ∧ MyMCP.getProp params "name" = Ok (Str name)
       ∧ MyMCP.registry_get (MyMCP.toolsRegistry this) name = Some tool
       ∧ this' = MyMCP.start {| MyMCP.call_session := sessionId;
                                MyMCP.call_handler := MyMCP.tool_handler tool;
                                MyMCP.call_body := body |} this).
Proof.
unfold MyMCP.dispatch.
destruct (MyMCP.getProp body "method") as [m|]; [|discriminate].
cbn [mbind result_bind].
destruct (MyMCP.strictEq m "tools/list").
{ destruct (MyMCP.getProp body "id") as [id|]; [|discriminate].
  intros [= <- <-]. right; left. by eexists. }
destruct (MyMCP.strictEq m "tools/call").
{ destruct (MyMCP.getProp body "params") as [params|] eqn:Hparams;
    [|discriminate].
  cbn [mbind result_bind].
  destruct (MyMCP.getProp params "name") as [name|] eqn:Hname;
    [|discriminate].
  cbn [mbind result_bind].
  destruct (match name with
            | Str name => MyMCP.registry_get (MyMCP.toolsRegistry this) name
            | _ => None
            end) as [tool|] eqn:Htool.
  - intros [= <- <-]. right; right.
    destruct name as [| | | |name| |]; try discriminate.
    by exists params, name, tool.
  - destruct (MyMCP.getProp body "id") as [id|]; [|discriminate].
    intros [= <- <-]. right; left. by eexists. }
destruct (MyMCP.strictEq m "notifications/initialized"
          || MyMCP.strictEq m "initialize").
{ destruct (MyMCP.strictEq m "initialize").
  - destruct (MyMCP.getProp body "id") as [id|]; [|discriminate].
    intros [= <- <-]. right; left. by eexists.
  - intros [= <- <-]. by left. }
intros [= <- <-]. by left.
Qed.

(** What serving a request does to the state, where [base] is the state
    that [init] leaves. *)
Lemma fetch_effect uuid request this :
  let base := (MyMCP.init this).2 in
  let after := (MyMCP.fetch uuid request this).2 in
  (MyMCP.pathname request = lit "/mcp/sse"
   ∧ ∃ frames,
       after = {| MyMCP.sessions := <[uuid := frames]> (MyMCP.sessions base);
                  MyMCP.server := MyMCP.server base;
                  MyMCP.toolsRegistry := MyMCP.toolsRegistry base;
                  MyMCP.started := MyMCP.started base |})
  ∨ after = this
  ∨ after = base
  ∨ (∃ session payload,
       MyMCP.pathname request = lit "/mcp/messages"
       ∧ MyMCP.sessionId request = Some session
       ∧ after = MyMCP.enqueue session (MyMCP.Message payload) base)
  ∨ (∃ session body params name tool,
       MyMCP.sessionId request = Some session
       ∧ MyMCP.json request = Ok body
       ∧ MyMCP.getProp body "params" = Ok params
       ∧ MyMCP.getProp params "name" = Ok (Str name)
       ∧ MyMCP.registry_get (MyMCP.toolsRegistry base) name = Some tool
       ∧ after = MyMCP.start {| MyMCP.call_session := session;
                                MyMCP.call_handler := MyMCP.tool_handler tool;
                                MyMCP.call_body := body |} base).
Proof.
intros base after. unfold after, base, MyMCP.fetch.
destruct (decide (MyMCP.pathname request = lit "/mcp/sse")) as [Hsse|_].
{ destruct (MyMCP.init this) as [[[]|message] this'];
    [left; split; [done|]; by eexists|by right; right; left]. }
destruct (decide (MyMCP.pathname request = lit "/mcp/messages"
                  ∧ MyMCP.method request = lit "POST")) as [[Hpath _]|_];
  [|by right; left].
destruct (MyMCP.sessionId request) as [[|c session]|] eqn:Hsession;
  [by right; left| |by right; left].
destruct (MyMCP.sessions this !! (c :: session)); [|by right; left].
destruct (MyMCP.init this) as [[[]|message] this'];
  [|by right; right; left].
destruct (MyMCP.json request) as [body|] eqn:Hjson; [|by right; right; left].
destruct (MyMCP.dispatch (c :: session) body this')
  as [[response this'']|] eqn:Hdispatch; [|by right; right; left].
cbn [snd].
apply dispatch_effect in Hdispatch
  as [->|[[payload ->]|(params & name & tool & ? & ? & ? & ->)]].
- by right; right; left.
- right; right; right; left. by exists (c :: session), payload.
- right; right; right; right. by exists (c :: session), body, params, name, tool.
Qed.

(** X18: serving a request never closes a stream and never rewrites what a
    stream has received: a session that is open stays open, its frames stay
    where they are, and at most one frame is added, which happens only to
    the session that a submission names. *)
Theorem fetch_keeps_streams
    (uuid : jsstring) (request : MyMCP.Request) (this : MyMCP.t)
    (session : jsstring) (queue : list MyMCP.chunk) :
  MyMCP.sessions this !! session = Some queue →
  (MyMCP.pathname request = lit "/mcp/sse" → session ≠ uuid) →
  ∃ added,
    MyMCP.sessions (MyMCP.fetch uuid request this).2 !! session
    = Some (queue ++ added)
    ∧ (length added ≤ 1)%nat
    ∧ (added ≠ [] →
       MyMCP.pathname request = lit "/mcp/messages"
       ∧ MyMCP.sessionId request = Some session).
Proof.
intros Hqueue Hfresh.
destruct (init_state this) as [Hbase _].
destruct (fetch_effect uuid request this)
  as [[Hsse [frames ->]]|[->|[->|[(s & payload & Hpath & Hs & ->)
     |(s & body & params & name & tool & _ & _ & _ & _ & _ & ->)]]]];
  cbn [MyMCP.sessions MyMCP.enqueue MyMCP.start]; rewrite ?Hbase.
- exists []. rewrite lookup_insert_ne by (intros ->; by apply Hfresh).
  rewrite app_nil_r. split; [done|]. split; [cbn; lia|done].
- exists []. rewrite app_nil_r. split; [done|]. split; [cbn; lia|done].
- exists []. rewrite app_nil_r. split; [done|]. split; [cbn; lia|done].
- destruct (decide (s = session)) as [->|Hne].
  + exists [MyMCP.Message payload]. rewrite lookup_alter_eq, Hqueue.
    split; [done|]. split; [cbn; lia|done].
  + exists []. rewrite lookup_alter_ne, app_nil_r by done.
    split; [done|]. split; [cbn; lia|done].
- exists []. rewrite app_nil_r. split; [done|]. split; [cbn; lia|done].
Qed.

Lemma fetch_keeps_streams_witness :
  ∃ added,
    MyMCP.sessions
      (MyMCP.fetch [] (Sample.post Sample.listTools) Sample.opened).2
      !! Sample.sessionId
    = Some (Sample.endpointFrames ++ added)
    ∧ (length added ≤ 1)%nat
    ∧ (added ≠ [] →
       MyMCP.pathname (Sample.post Sample.listTools) = lit "/mcp/messages"
       ∧ MyMCP.sessionId (Sample.post Sample.listTools)
         = Some Sample.sessionId).
Proof.
apply (fetch_keeps_streams [] (Sample.post Sample.listTools) Sample.opened
         Sample.sessionId Sample.endpointFrames).
- vm_compute. reflexivity.
- intros H. vm_compute in H. discriminate.
Defined.

(** ** Invariants of the Durable Object *)

(** Once the first tool is on the server, serving a request changes
    nothing: every path of [fetch] that changes the state runs [init]
    first, and [init] throws. *)
Lemma fetch_registered uuid request this :
  lit "search" ∈ MyMCP.server this →
  (MyMCP.fetch uuid request this).2 = this.
Proof.
intros Hserver. unfold MyMCP.fetch. rewrite (init_registered this Hserver).
repeat case_decide; try reflexivity.
destruct (MyMCP.sessionId request) as [[|c session]|]; try reflexivity.
by destruct (MyMCP.sessions this !! (c :: session)).
Qed.

Lemma init_fresh :
  MyMCP.init Sample.fresh = (Ok (), (MyMCP.init Sample.fresh).2).
Proof. reflexivity. Qed.

(** The states of the Durable Object: before the first stream is opened
    nothing is registered; from then on the server and the registry hold
    the four tools, at most one session is open, its stream has received
    text frames only, and no call has been started. *)
Lemma reachable_state this :
  reachable this →
  MyMCP.started this = []
  ∧ ((MyMCP.server this = [] ∧ MyMCP.sessions this = ∅
      ∧ MyMCP.toolsRegistry this = [])
     ∨ (MyMCP.server this
        = [lit "search"; lit "browse"; lit "multi_search"; lit "multi_browse"]
        ∧ MyMCP.toolsRegistry this
          = MyMCP.toolsRegistry (MyMCP.init Sample.fresh).2
        ∧ (MyMCP.sessions this = ∅
           ∨ ∃ session queue,
               MyMCP.sessions this = {[session := queue]}
               ∧ ∀ payload, MyMCP.Message payload ∉ queue))).
Proof.
unfold reachable. revert this.
apply (rtc_ind_r (λ this,
  MyMCP.started this = []
  ∧ ((MyMCP.server this = [] ∧ MyMCP.sessions this = ∅
      ∧ MyMCP.toolsRegistry this = [])
     ∨ (MyMCP.server this
        = [lit "search"; lit "browse"; lit "multi_search"; lit "multi_browse"]
        ∧ MyMCP.toolsRegistry this
          = MyMCP.toolsRegistry (MyMCP.init Sample.fresh).2
        ∧ (MyMCP.sessions this = ∅
           ∨ ∃ session queue,
               MyMCP.sessions this = {[session := queue]}
               ∧ ∀ payload, MyMCP.Message payload ∉ queue)))));
  [split; [reflexivity|left; by repeat split]|].
intros this this' _ Hstep [Hstarted Hstate].
destruct Hstep as [uuid request|sessionId|sessionId alive|k outcome].
- destruct Hstate as [(Hserver & Hsessions & Hregistry)
                     |(Hserver & Hregistry & Hsessions)].
  + assert (this = Sample.fresh) as ->.
    { destruct this as [sessions server registry started].
      cbn [MyMCP.started MyMCP.server MyMCP.sessions MyMCP.toolsRegistry] in *.
      by subst. }
    unfold MyMCP.fetch.
    destruct (decide (MyMCP.pathname request = lit "/mcp/sse")).
    * rewrite init_fresh.
      cbn [snd MyMCP.started MyMCP.server MyMCP.sessions MyMCP.toolsRegistry].
      split; [reflexivity|]. right. split; [reflexivity|].
      split; [reflexivity|]. right. eexists _, _.
      split; [apply insert_empty|].
      intros payload Hin. apply elem_of_cons in Hin as [?|Hin]; [done|].
      apply elem_of_cons in Hin as [?|Hin]; [done|].
      by apply elem_of_nil in Hin.
    * case_decide; [|split; [reflexivity|left; by repeat split]].
      destruct (MyMCP.sessionId request) as [[|c s]|];
        (split; [reflexivity|left; by repeat split]).
  + rewrite fetch_registered by (rewrite Hserver; by left).
    split; [done|]. right. by repeat split.
- split; [done|].
  destruct Hstate as [(Hserver & Hsessions & Hregistry)
                     |(Hserver & Hregistry & Hsessions)];
    cbn [MyMCP.cancel MyMCP.server MyMCP.sessions MyMCP.toolsRegistry].
  + left. rewrite Hsessions. by rewrite delete_empty.
  + right. split; [done|]. split; [done|].
    destruct Hsessions as [->|(session & queue & -> & Htext)].
    * left. apply delete_empty.
    * destruct (decide (sessionId = session)) as [->|Hne].
      -- left. apply delete_singleton_eq.
      -- right. exists session, queue. split; [|done].
         by apply delete_singleton_ne.
- destruct alive; cbn [MyMCP.keepAlive].
  + split; [done|].
    destruct Hstate as [(Hserver & Hsessions & Hregistry)
                       |(Hserver & Hregistry & Hsessions)];
      cbn [MyMCP.enqueue MyMCP.server MyMCP.sessions MyMCP.toolsRegistry].
    * left. rewrite Hsessions. split; [done|]. split; [|done].
      apply alter_empty.
    * right. split; [done|]. split; [done|].
      destruct Hsessions as [->|(session & queue & -> & Htext)].
      -- left. apply alter_empty.
      -- right. destruct (decide (sessionId = session)) as [->|Hne].
         ++ eexists _, _. split; [apply alter_singleton_eq|].
            intros payload Hin. apply elem_of_app in Hin as [Hin|Hin];
              [by apply (Htext payload)|].
            apply elem_of_cons in Hin as [?|Hin]; [discriminate|].
            by apply elem_of_nil in Hin.
         ++ exists session, queue. split; [|done].
            by apply alter_singleton_ne.
  + split; [done|].
    destruct Hstate as [(Hserver & Hsessions & Hregistry)
                       |(Hserver & Hregistry & Hsessions)];
      cbn [MyMCP.server MyMCP.sessions MyMCP.toolsRegistry].
    * left. rewrite Hsessions. by rewrite delete_empty.
    * right. split; [done|]. split; [done|].
      destruct Hsessions as [->|(session & queue & -> & Htext)].
      -- left. apply delete_empty.
      -- destruct (decide (sessionId = session)) as [->|Hne].
         ++ left. apply delete_singleton_eq.
         ++ right. exists session, queue. split; [|done].
            by apply delete_singleton_ne.
- unfold MyMCP.settle. rewrite Hstarted. cbn [lookup list_lookup].
  by rewrite lookup_nil.
Qed.



(** X20: a submission that names an open session is never answered,
    whatever its body is and whatever the Durable Object has served before:
    [fetch] runs [init] again, the registration of the first tool throws
    [Tool search is already registered], and the request fails with this
    exception before its body is read.  Nothing is written to a stream and
    no call is started. *)
Theorem open_session_is_never_answered
    (uuid : jsstring) (request : MyMCP.Request) (this : MyMCP.t)
    (session : jsstring) (queue : list MyMCP.chunk) :
  reachable this →
  MyMCP.pathname request = lit "/mcp/messages" →
  MyMCP.method request = lit "POST" →
  MyMCP.sessionId request = Some session →
  session ≠ [] →
  MyMCP.sessions this !! session = Some queue →
  MyMCP.fetch uuid request this
  = (Throw (lit "Tool search is already registered"), this).
Proof.
intros [_ Hstate]%reachable_state Hpath Hmethod Hsession Hne Hqueue.
apply (open_session_throws uuid request this Hpath Hmethod session queue);
  try done.
destruct Hstate as [(_ & Hempty & _)|(-> & _)]; [|by left].
by rewrite Hempty, lookup_empty in Hqueue.
Qed.

Lemma open_session_is_never_answered_witness :
  MyMCP.fetch [] (Sample.post Sample.callSearch) Sample.opened
  = (Throw (lit "Tool search is already registered"), Sample.opened).
Proof.
apply (open_session_is_never_answered [] (Sample.post Sample.callSearch)
         Sample.opened Sample.sessionId Sample.endpointFrames).
- apply rtc_once, (step_fetch Sample.fresh).
- reflexivity.
- reflexivity.
- reflexivity.
- discriminate.
- vm_compute. reflexivity.
Defined.

(** X21: at no time a call is under way, and no stream has ever received a
    JSON-RPC message: the streams hold the frames of the endpoint event and
    keep-alive comments only. *)
Theorem no_message_is_ever_written (this : MyMCP.t) :
  reachable this →
  MyMCP.started this = []
  ∧ ∀ session queue payload,
      MyMCP.sessions this !! session = Some queue →
      MyMCP.Message payload ∉ queue.
Proof.
intros [Hstarted Hstate]%reachable_state. split; [done|].
intros session queue payload Hqueue.
destruct Hstate as [(_ & Hempty & _)|(_ & _ & [Hempty|(s & q & Hs & Htext)])].
- by rewrite Hempty, lookup_empty in Hqueue.
- by rewrite Hempty, lookup_empty in Hqueue.
- rewrite Hs in Hqueue. apply lookup_singleton_Some in Hqueue as [_ <-].
  apply Htext.
Qed.

Lemma no_message_is_ever_written_witness :
  let this :=
    MyMCP.keepAlive Sample.sessionId true
      (MyMCP.fetch [] (Sample.post Sample.listTools) Sample.opened).2 in
  MyMCP.started this = []
  ∧ ∀ session queue payload,
      MyMCP.sessions this !! session = Some queue →
      MyMCP.Message payload ∉ queue.
Proof.
apply (no_message_is_ever_written
         (MyMCP.keepAlive Sample.sessionId true
            (MyMCP.fetch [] (Sample.post Sample.listTools) Sample.opened).2)).
eapply rtc_r; [eapply rtc_r; [apply rtc_once, (step_fetch Sample.fresh)|]|].
- apply (step_fetch Sample.opened).
- apply step_keepAlive.
Defined.

(** X22: an instance opens one stream in its life.  At any time at most
    one session is open, and once the server holds a tool, every request to
    [/mcp/sse] fails with [Tool search is already registered] and changes
    nothing, also after the session was closed. *)
Theorem one_stream_per_instance (this : MyMCP.t) :
  reachable this →
  (∀ session session' queue queue',
     MyMCP.sessions this !! session = Some queue →
     MyMCP.sessions this !! session' = Some queue' →
     session = session')
  ∧ (MyMCP.server this ≠ [] →
     ∀ uuid request,
       MyMCP.pathname request = lit "/mcp/sse" →
       MyMCP.fetch uuid request this
       = (Throw (lit "Tool search is already registered"), this)).
Proof.
intros [_ Hstate]%reachable_state. split.
- intros session session' queue queue' Hqueue Hqueue'.
  destruct Hstate as [(_ & Hempty & _)|(_ & _ & [Hempty|(s & q & Hs & _)])].
  + by rewrite Hempty, lookup_empty in Hqueue.
  + by rewrite Hempty, lookup_empty in Hqueue.
  + rewrite Hs in Hqueue, Hqueue'.
    apply lookup_singleton_Some in Hqueue as [<- _].
    by apply lookup_singleton_Some in Hqueue' as [<- _].
- intros Hserver uuid request Hpath.
  destruct Hstate as [(Hnone & _)|(Hfour & _)]; [done|].
  unfold MyMCP.fetch. rewrite Hpath, decide_True by reflexivity.
  by rewrite init_registered by (rewrite Hfour; by left).
Qed.

Lemma one_stream_per_instance_witness :
  let closed := MyMCP.cancel Sample.sessionId Sample.opened in
  (∀ session session' queue queue',
     MyMCP.sessions closed !! session = Some queue →
     MyMCP.sessions closed !! session' = Some queue' →
     session = session')
  ∧ (MyMCP.server closed ≠ [] →
     ∀ uuid request,
       MyMCP.pathname request = lit "/mcp/sse" →
       MyMCP.fetch uuid request closed
       = (Throw (lit "Tool search is already registered"), closed)).
Proof.
apply (one_stream_per_instance (MyMCP.cancel Sample.sessionId Sample.opened)).
eapply rtc_r; [apply rtc_once, (step_fetch Sample.fresh)|].
apply step_cancel.
Defined.

(** X23: once the stream of a session is cancelled, or a tick of its
    keep-alive timer fails, the session is forgotten and the other sessions
    are as before: whatever a later submission to that session asks, it is
    answered with the status 404 and changes nothing. *)
Theorem closed_session_is_forgotten
    (uuid : jsstring) (request : MyMCP.Request) (this : MyMCP.t)
    (session : jsstring) :
  MyMCP.pathname request = lit "/mcp/messages" →
  MyMCP.method request = lit "POST" →
  MyMCP.sessionId request = Some session →
  session ≠ [] →
  let closed := MyMCP.cancel session this in
  MyMCP.keepAlive session false this = closed
  ∧ MyMCP.sessions closed !! session = None
  ∧ (∀ other, other ≠ session →
       MyMCP.sessions closed !! other = MyMCP.sessions this !! other)
  ∧ MyMCP.fetch uuid request closed
    = (Ok (MyMCP.TextResponse (lit "Session not found or expired") 404),
       closed).
Proof.
intros Hpath Hmethod Hsession Hne closed.
assert (Hgone : MyMCP.sessions closed !! session = None)
  by apply lookup_delete_eq.
split; [reflexivity|]. split; [exact Hgone|].
split; [intros other Hother; by apply lookup_delete_ne|].
rewrite (fetch_submission uuid request closed Hpath Hmethod), Hsession.
destruct session as [|c session]; [done|]. by rewrite Hgone.
Qed.

Lemma closed_session_is_forgotten_witness :
  let request := Sample.post Sample.callSearch in
  let closed := MyMCP.cancel Sample.sessionId Sample.opened in
  MyMCP.keepAlive Sample.sessionId false Sample.opened = closed
  ∧ MyMCP.sessions closed !! Sample.sessionId = None
  ∧ (∀ other, other ≠ Sample.sessionId →
       MyMCP.sessions closed !! other = MyMCP.sessions Sample.opened !! other)
  ∧ MyMCP.fetch [] request closed
    = (Ok (MyMCP.TextResponse (lit "Session not found or expired") 404),
       closed).
Proof.
apply (closed_session_is_forgotten [] (Sample.post Sample.callSearch)
         Sample.opened Sample.sessionId);
  try (vm_compute; reflexivity).
discriminate.
Defined.
